(** * Sherlock object-detection pipeline (object2.py): a shallow embedding

    The program streams camera frames through an mpipe pipeline.  Frames
    live in a process-shared table [images] keyed by capture timestamp;
    the timestamp is the task that travels through the stages.

    Layout of this development:
    - [Py]      Python values, exceptions and the state/exception monad;
    - [Workers] the four [doTask] bodies (Detector, Postprocessor, Viewer,
                Staller), statement by statement;
    - [Ordered] the Ordered stage discipline of the pipeline engine;
    - [Program] the capture loop, the shutdown sequence and the
                deallocator, as a step relation over interleavings;
    - [Meaning] what the stage bodies and [deallocate] compute;
    - [Safety]  what holds of every run, whatever the clock returns;
    - [Sim]     a concrete frame type and classifiers to run all this on;
    - the properties: of the workers, of an Ordered stage, of the
      program, and the claims of the specification. *)

From stdpp Require Import gmap strings list fin_maps pretty relations.

Local Open Scope Z_scope.

(** Timestamps ([datetime.datetime]) and durations ([datetime.timedelta])
    both have microsecond resolution; they are integers counting
    microseconds.  Python normalises a timedelta to (days, seconds,
    microseconds) and compares the triples lexicographically, which is the
    order of the total number of microseconds. *)
Abbreviation Time := Z (only parsing).

(** * Python-level effects *)
Module Py.

(** The exceptions the program can meet: a dictionary miss, and anything
    an external collaborator (classifier, display) raises. *)
Inductive exn : Type :=
| KeyError (key : Time)
| Failure (what : string).

Inductive outcome (A : Type) : Type :=
| Ret (a : A)
| Raise (e : exn).
Arguments Ret {A} a.
Arguments Raise {A} e.

(** A statement runs on a state [S]; it returns or raises, and in both
    cases leaves a state behind (what was mutated before a [raise] stays
    mutated). *)
Definition M (S A : Type) : Type := S → outcome A * S.

#[export] Instance M_ret {S} : MRet (M S) := λ A a s, (Ret a, s).
#[export] Instance M_bind {S} : MBind (M S) := λ A B k m s,
  match m s with
  | (Ret a, s') => k a s'
  | (Raise e, s') => (Raise e, s')
  end.

Definition modify {S} (f : S → S) : M S unit := λ s, (Ret tt, f s).

(** [try: body / except: handler] with a bare [except], which catches
    every exception. *)
Definition try_except {S A} (body handler : M S A) : M S A := λ s,
  match body s with
  | (Ret a, s') => (Ret a, s')
  | (Raise _, s') => handler s'
  end.

(** [for x in xs: body x] *)
Fixpoint for_each {S A} (xs : list A) (body : A → M S unit) : M S unit :=
  match xs with
  | [] => mret tt
  | x :: xs' => body x ;; for_each xs' body
  end.

(** A block that uses a local variable of type [L] next to the state
    [S]: [lift] runs a statement on [S] inside it, [with_local] runs the
    block from an initial value and hands back the variable's final
    value. *)
Definition lift {S L A} (m : M S A) : M (S * L) A := λ '(s, l),
  let '(o, s') := m s in (o, (s', l)).

Definition with_local {S L A} (l0 : L) (m : M (S * L) A) : M S (outcome A * L) :=
  λ s, let '(o, (s', l)) := m (s, l0) in (Ret (o, l), s').


End Py.
Import Py.

(** * Data *)

(** A rectangle from the classifier: [(x, y, w, h)]. *)
Definition Rect : Type := Z * Z * Z * Z.
(** A colour: [(b, g, r)]. *)
Definition Color : Type := Z * Z * Z.
(** What the Detector emits: [(a, b, c, d, color)]. *)
Definition Rect5 : Type := Z * Z * Z * Z * Color.

(** The external collaborators: the frame buffers with the numpy/OpenCV
    operations the stages call on them, and the cascade classifiers of
    [util.cascade].  The classifier and the display can fail; drawing
    into a buffer cannot. *)
Class Vision (Frame Classifier : Type) : Type := {
  (** [np.shape(image)[:2]]: (rows, columns) *)
  np_shape : Frame → Z * Z;
  (** [classifier.detectMultiScale(image, scaleFactor=1.3, minNeighbors=3,
      minSize=.., maxSize=..)] *)
  detectMultiScale : Classifier → Frame → Z * Z → Z * Z → outcome (list Rect);
  (** [util.cascade.colors[classi]] *)
  cascade_color : Classifier → Color;
  (** [cv2.rectangle(img, pt1, pt2, color=.., thickness=2)], in place *)
  cv2_rectangle : Frame → Z * Z → Z * Z → Color → Frame;
  (** [util.writeOSD(img, lines)], in place *)
  writeOSD : Frame → list string → Frame;
  (** the text ['%.2f, %.2f, %.2f fps' % rates], the rates being those of
      [util.RateTicker((1,5,10))] after the ticks recorded so far *)
  fps_text : list Time → string;
  (** [cv2.imshow(name, image)] followed by [cv2.waitKey(1)] *)
  cv2_imshow : string → Frame → outcome unit;
}.

(** The state shared by the processes of the program. *)
Record World (Frame : Type) : Type := mkWorld {
  clock : Time;                    (* what [datetime.datetime.now()] reads *)
  images : gmap Z Frame;           (* the [manager.dict()] table *)
  stdout : list string;            (* lines printed, oldest first *)
  window : list Frame;             (* frames shown, oldest first *)
  ticks : list Time;               (* [framerate]: times of the ticks *)
}.
Arguments mkWorld {Frame}.
Arguments clock {Frame}.
Arguments images {Frame}.
Arguments stdout {Frame}.
Arguments window {Frame}.
Arguments ticks {Frame}.

(** The payload of a pipeline: a timestamp alone, or a timestamp paired
    with the results a filter stage collected for it. *)
Inductive Task : Type :=
| TToken (tstamp : Time)
| TRects (tstamp : Time) (rects : list (list Rect5))
| TViews (tstamp : Time) (results : list Time).

Definition task_token (t : Task) : Time :=
  match t with
  | TToken ts | TRects ts _ | TViews ts _ => ts
  end.

(** * The workers *)
Module Workers.
Section Workers.
Context {Frame Classifier : Type} `{!Vision Frame Classifier}.

Abbreviation W := (World Frame).

(** ** Primitive statements on the shared state *)

(** [images[tstamp]] *)
Definition images_getitem (tstamp : Time) : M W Frame := λ w,
  match images w !! tstamp with
  | Some f => (Ret f, w)
  | None => (Raise (KeyError tstamp), w)
  end.

(** [images[tstamp] = frame]: a plain dictionary assignment. *)
Definition images_setitem (tstamp : Time) (f : Frame) : M W unit :=
  modify (λ w, mkWorld (clock w) (<[tstamp := f]> (images w))
                       (stdout w) (window w) (ticks w)).

(** [del images[tstamp]] *)
Definition images_delitem (tstamp : Time) : M W unit := λ w,
  match images w !! tstamp with
  | Some _ => (Ret tt, mkWorld (clock w) (delete tstamp (images w))
                               (stdout w) (window w) (ticks w))
  | None => (Raise (KeyError tstamp), w)
  end.

(** [print(line)] *)
Definition print (line : string) : M W unit :=
  modify (λ w, mkWorld (clock w) (images w) (stdout w ++ [line])
                       (window w) (ticks w)).

(** [datetime.datetime.now()] *)
Definition datetime_now : M W Time := λ w, (Ret (clock w), w).

(** The world as a process finds it when it looks at the clock at [now]. *)
Definition at_time (now : Time) (w : W) : W :=
  mkWorld now (images w) (stdout w) (window w) (ticks w).

(** [time.sleep(d)]: the caller is blocked for [d]. *)
Definition time_sleep (d : Z) : M W unit :=
  modify (λ w, mkWorld (clock w + d) (images w) (stdout w)
                       (window w) (ticks w)).

(** [framerate.tick()]: records the time of the tick; the rates it
    returns are rendered by [fps_text]. *)
Definition framerate_tick : M W string := λ w,
  let ts := ticks w ++ [clock w] in
  (Ret (fps_text ts), mkWorld (clock w) (images w) (stdout w) (window w) ts).

(** An in-place operation on the buffer [images[tstamp]]: the lookup,
    then the mutation of the shared buffer. *)
Definition images_update (tstamp : Time) (op : Frame → Frame) : M W unit :=
  f ← images_getitem tstamp;
  images_setitem tstamp (op f).

(** [cv2.imshow] then [cv2.waitKey(1)]; a frame that was displayed is
    recorded. *)
Definition show (name : string) (f : Frame) : M W unit := λ w,
  match cv2_imshow name f with
  | Ret _ => (Ret tt, mkWorld (clock w) (images w) (stdout w)
                              (window w ++ [f]) (ticks w))
  | Raise e => (Raise e, w)
  end.

(** The value of an external call. *)
Definition call {S A} (o : outcome A) : M S A := λ s, (o, s).

(** ** Detector.doTask *)

(** The body of the [try]: the local variable [result] is the second
    component of the state. *)
Definition Detector_try (classifier : Classifier) (color : Color)
           (tstamp : Time) : M (W * list Rect5) unit :=
  image ← lift (images_getitem tstamp);
  let size := np_shape image in
  rects ← call (detectMultiScale classifier image
                  (size.1 `div` 20, size.2 `div` 20)
                  (size.1 `div` 2, size.2 `div` 2));
  if bool_decide (rects ≠ []) then
    for_each rects (λ '(a, b, c, d),
      modify (λ '(w, result), (w, result ++ [(a, b, c, d, color)])))
  else mret tt.

Definition Detector_doTask (classifier : Classifier) (color : Color)
           (tstamp : Time) : M W (list Rect5) :=
  '(_, result) ← with_local []
      (try_except (Detector_try classifier color tstamp)
                  (lift (print "Error in detector !!!")));
  mret result.

(** ** Postprocessor.doTask *)

Definition Postprocessor_doTask (task : Time * list (list Rect5)) : M W Time :=
  let '(tstamp, rects) := task in
  (* Make a flat list from a list of lists. *)
  let rects := concat rects in
  (* Draw rectangles. *)
  for_each rects (λ '(x1, y1, x2, y2, color),
    images_update tstamp
      (λ img, cv2_rectangle img (x1, y1) (x1 + x2, y1 + y2) color));;
  (* Write image dimensions and framerate. *)
  image ← images_getitem tstamp;
  let size := np_shape image in
  img ← images_getitem tstamp;
  fps ← framerate_tick;
  images_setitem tstamp
    (writeOSD img [pretty size.2 +:+ "x" +:+ pretty size.1; fps]);;
  mret tstamp.

(** ** Viewer.doTask *)

Definition Viewer_try (tstamp : Time) : M W unit :=
  image ← images_getitem tstamp;
  show "object detection 2" image.

Definition Viewer_doTask (tstamp : Time) : M W Time :=
  try_except (Viewer_try tstamp) (print "Error in viewer !!!");;
  mret tstamp.

(** ** Staller.doTask *)

(** [datetime.timedelta(seconds=2)] *)
Definition min_age : Z := 2 * 1000000.

(** The duration the Staller computes for a task seen at time [now]. *)
Definition stall_duration (now tstamp : Time) : Z :=
  let delta := now - tstamp in
  min_age - delta.

Definition Staller_doTask (task : Time * list Time) : M W Time :=
  let '(tstamp, results) := task in
  now ← datetime_now;
  let duration := stall_duration now tstamp in
  (if bool_decide (duration > 0) then time_sleep duration else mret tt);;
  mret tstamp.

(** ** What the stages hand on *)

(** The world after an [except] handler printed [line]. *)
Definition logged (line : string) (w : W) : W :=
  mkWorld (clock w) (images w) (stdout w ++ [line]) (window w) (ticks w).

(** The Staller's stage as a function on tasks: what it receives from
    [filter_viewer] and what it puts on its output. *)
Definition Staller_input (task : Time * list Time) : Task :=
  TViews task.1 task.2.
Definition Staller_output (tstamp : Time) : Task := TToken tstamp.


End Workers.
End Workers.
Import Workers.

(** * A stage worker *)

(** Modelled from the spec: the run loop of one stage worker, which is
    mpipe code and not part of the sources.  The worker takes the tasks of
    its stage one after the other, calls [doTask] and puts the value it
    returns on the output; an exception that escapes [doTask] ends the
    worker, and the tasks behind it are not processed. *)
Fixpoint worker_run {S T R} (doTask : T → M S R) (tasks : list T) (s : S)
  : list R * outcome unit * S :=
  match tasks with
  | [] => ([], Ret tt, s)
  | t :: ts =>
      match doTask t s with
      | (Ret r, s') =>
          let '(rs, o, s'') := worker_run doTask ts s' in (r :: rs, o, s'')
      | (Raise e, s') => ([], Raise e, s')
      end
  end.

(** The worker classes of the program and the mpipe class each derives
    from. *)
Inductive Discipline : Type := OrderedWorker | UnorderedWorker.
Inductive WorkerClass : Type := Detector | Postprocessor | Viewer | Staller.

Definition base_class (c : WorkerClass) : Discipline :=
  match c with
  | Detector => OrderedWorker       (* class Detector(mpipe.OrderedWorker) *)
  | Postprocessor => OrderedWorker  (* class Postprocessor(mpipe.OrderedWorker) *)
  | Viewer => OrderedWorker         (* class Viewer(mpipe.OrderedWorker) *)
  | Staller => OrderedWorker        (* class Staller(mpipe.OrderedWorker) *)
  end.

(** * The Ordered discipline *)
Module Ordered.
Section Ordered.
Local Open Scope nat_scope.
Context {T R : Type}.
(** [doTask t r]: the task function, run on [t], returns [r]. *)
Variable doTask : T → R → Prop.
(** The number of workers of the stage. *)
Variable pool : nat.

(** Modelled from the spec: an Ordered stage of mpipe, which is not part
    of the sources.  The pool may process several tasks at the same time;
    results are buffered and released downstream strictly in arrival
    order: a task that finishes early waits for all earlier ones. *)
Record stage : Type := mkStage {
  inbox : list T;            (* submitted, not yet taken by a worker *)
  taken : nat;               (* tasks taken so far: the next arrival number *)
  running : gmap nat T;      (* in process, by arrival number *)
  finished : gmap nat R;     (* results waiting for their turn *)
  emitted : list R;          (* released downstream, oldest first *)
}.

Definition stage_init (tasks : list T) : stage := mkStage tasks 0 ∅ ∅ [].

Inductive stage_step : stage → stage → Prop :=
| step_take t q n run fin out :        (* a free worker takes the next task *)
    size run < pool →
    stage_step (mkStage (t :: q) n run fin out)
               (mkStage q (S n) (<[n := t]> run) fin out)
| step_finish q n run fin out i t r :  (* any running task finishes *)
    run !! i = Some t → doTask t r →
    stage_step (mkStage q n run fin out)
               (mkStage q n (delete i run) (<[i := r]> fin) out)
| step_release q n run fin out r :     (* the oldest unreleased result is ready *)
    fin !! length out = Some r →
    stage_step (mkStage q n run fin out)
               (mkStage q n run (delete (length out) fin) (out ++ [r])).

(** The work that is left, in steps. *)
Definition stage_fuel (s : stage) : nat :=
  3 * length (inbox s) + 2 * size (running s) + size (finished s).

(** What holds of every state an Ordered stage reaches on [tasks]. *)
Record stage_inv (tasks : list T) (s : stage) : Prop := mkStageInv {
  inv_inbox : drop (taken s) tasks = inbox s;
  inv_taken : taken s ≤ length tasks;
  inv_running : ∀ i t, running s !! i = Some t →
     tasks !! i = Some t ∧ length (emitted s) ≤ i < taken s
     ∧ finished s !! i = None;
  inv_finished : ∀ i r, finished s !! i = Some r →
     (∃ t, tasks !! i = Some t ∧ doTask t r)
     ∧ length (emitted s) ≤ i < taken s;
  inv_emitted : Forall2 doTask (take (length (emitted s)) tasks) (emitted s);
  inv_emitted_taken : length (emitted s) ≤ taken s;
  inv_cover : ∀ i, length (emitted s) ≤ i < taken s →
     is_Some (running s !! i) ∨ is_Some (finished s !! i);
}.

End Ordered.
End Ordered.

(** * The program: capture loop, pipelines, deallocator *)
Module Program.
Section Program.
Context {Frame Classifier : Type} `{!Vision Frame Classifier}.
(** [end = now + datetime.timedelta(seconds=DURATION)] *)
Variable end_ : Time.

Abbreviation W := (World Frame).

(** What happened so far, oldest first. *)
Inductive event : Type :=
| EvInsert (tstamp : Time)      (* images[now] = image_in *)
| EvPut (tstamp : Time)         (* pipe_iproc.put(now) *)
| EvLoopExit (now : Time)       (* the test [end > now] failed *)
| EvStopIproc                   (* pipe_iproc.put(None) *)
| EvStopDealloc                 (* pipe_dealloc.put(None) *)
| EvDrained                     (* the loop over pipe_dealloc.results() ended *)
| EvEmit (tstamp : Time)        (* the Staller put its result on pipe_iproc's output *)
| EvPull (tstamp : Time)        (* pipe_iproc.results() yielded it to deallocate *)
| EvIprocEnd                    (* pipe_iproc.results() terminated *)
| EvDelete (tstamp : Time)      (* del images[tstamp] *)
| EvDeallocEnd.                 (* pipe_dealloc forwarded the stop task *)

(** Where the main process stands.  [feed] is what the coming iterations
    will read: the value of [datetime.datetime.now()] and the frame copied
    from [cap.read()] into shared memory. *)
Inductive main_pc : Type :=
| Capturing (now : Time) (feed : list (Time * Frame))  (* at [while end > now] *)
| Putting (now : Time) (feed : list (Time * Frame))    (* before [pipe_iproc.put(now)] *)
| SendStopIproc                                        (* before [pipe_iproc.put(None)] *)
| SendStopDealloc                                      (* before [pipe_dealloc.put(None)] *)
| Draining                                             (* in [for result in pipe_dealloc.results()] *)
| Finished.

(** Where the worker that runs [deallocate] stands. *)
Inductive dealloc_pc : Type :=
| DIdle                         (* waiting for its task *)
| DRunning                      (* in [for tstamp in pipe_iproc.results()] *)
| DDeleting (tstamp : Time)     (* before [del images[tstamp]] *)
| DReturned                     (* [deallocate] returned; waiting for a task *)
| DStopped                      (* got the stop task *)
| DCrashed (e : exn).           (* an exception escaped [deallocate] *)

Inductive worker_st : Type := Alive | Stopped | Died (e : exn).

(** Modelled from the spec: the queues of mpipe's Pipeline, which is not
    part of the sources.  [put] appends to the queue at the head,
    [results()] pulls from the queue at the tail, and [None] is the stop
    task: a stage that receives it forwards it and terminates.  The chain
    [filter_detector --> postproc --> filter_viewer --> staller] has the
    queues [q_in] (in front of the Postprocessor), [q_mid] (in front of
    the Staller) and [q_out] (the results). *)
Record state : Type := mkState {
  pc : main_pc;
  world : W;
  q_in : list (option Time);
  q_mid : list (option Time);
  q_out : list (option Time);
  postproc_st : worker_st;
  staller_st : worker_st;
  dealloc_in : list (option bool);
  dpc : dealloc_pc;
  dealloc_out : list (option unit);
  trace : list event;
}.

(** The state after lines 1-149: the table is empty, [pipe_dealloc] has
    been given its task [True], the loop is about to start.  The values
    the main process reads from the clock come with the feed. *)
Definition init (now : Time) (feed : list (Time * Frame)) : state :=
  mkState (Capturing now feed) (mkWorld now ∅ [] [] [])
          [] [] [] Alive Alive [Some true] DIdle [] [].

(** One atomic move of one process.  The filter stages hand the
    Postprocessor a pair [(tstamp, rects)] and the Staller a pair
    [(tstamp, results)]; which branch results the lists hold is decided
    inside mpipe, so the move is parameterised by them, and by the time
    [now] at which the worker starts on the task.  The Detectors and the
    Viewer run in the branches of the filter stages; they read the table,
    print and display, and change nothing the moves below depend on, so
    their runs are not moves of their own. *)
Inductive action : Type :=
| CapRead | CapPut | CapExit | StopIproc | StopDealloc | Drain
| Postproc (rects : list (list Rect5)) (now : Time)
| Stall (results : list Time) (now : Time)
| DeallocStart | DeallocPull | DeallocDel | DeallocStop.

Definition fire (a : action) (s : state) : option state :=
  let '(mkState pc w qi qm qo ps ss di dp do tr) := s in
  match a with
  | CapRead =>
      match pc with
      | Capturing now ((t, f) :: feed) =>
          if bool_decide (end_ > now) then
            Some (mkState (Putting t feed) (images_setitem t f w).2
                          qi qm qo ps ss di dp do (tr ++ [EvInsert t]))
          else None
      | _ => None
      end
  | CapPut =>
      match pc with
      | Putting t feed =>
          Some (mkState (Capturing t feed) w (qi ++ [Some t]) qm qo ps ss
                        di dp do (tr ++ [EvPut t]))
      | _ => None
      end
  | CapExit =>
      match pc with
      | Capturing now feed =>
          if bool_decide (end_ > now) then None
          else Some (mkState SendStopIproc w qi qm qo ps ss di dp do
                             (tr ++ [EvLoopExit now]))
      | _ => None
      end
  | StopIproc =>
      match pc with
      | SendStopIproc =>
          Some (mkState SendStopDealloc w (qi ++ [None]) qm qo ps ss
                        di dp do (tr ++ [EvStopIproc]))
      | _ => None
      end
  | StopDealloc =>
      match pc with
      | SendStopDealloc =>
          Some (mkState Draining w qi qm qo ps ss (di ++ [None]) dp do
                        (tr ++ [EvStopDealloc]))
      | _ => None
      end
  | Drain =>
      match pc, do with
      | Draining, Some _ :: do' =>
          Some (mkState Draining w qi qm qo ps ss di dp do' tr)
      | Draining, None :: do' =>
          Some (mkState Finished w qi qm qo ps ss di dp do' (tr ++ [EvDrained]))
      | _, _ => None
      end
  | Postproc rects at_ =>
      match ps, qi with
      | Alive, Some t :: qi' =>
          match Postprocessor_doTask (t, rects) (at_time at_ w) with
          | (Ret t', w') =>
              Some (mkState pc w' qi' (qm ++ [Some t']) qo ps ss di dp do tr)
          | (Raise e, w') =>
              Some (mkState pc w' qi' qm qo (Died e) ss di dp do tr)
          end
      | Alive, None :: qi' =>
          Some (mkState pc w qi' (qm ++ [None]) qo Stopped ss di dp do tr)
      | _, _ => None
      end
  | Stall results at_ =>
      match ss, qm with
      | Alive, Some t :: qm' =>
          match Staller_doTask (t, results) (at_time at_ w) with
          | (Ret t', w') =>
              Some (mkState pc w' qi qm' (qo ++ [Some t']) ps ss di dp do
                            (tr ++ [EvEmit t']))
          | (Raise e, w') =>
              Some (mkState pc w' qi qm' qo ps (Died e) di dp do tr)
          end
      | Alive, None :: qm' =>
          Some (mkState pc w qi qm' (qo ++ [None]) ps Stopped di dp do tr)
      | _, _ => None
      end
  | DeallocStart =>
      match dp, di with
      | DIdle, Some _ :: di' =>
          Some (mkState pc w qi qm qo ps ss di' DRunning do tr)
      | _, _ => None
      end
  | DeallocPull =>
      match dp, qo with
      | DRunning, Some t :: qo' =>
          Some (mkState pc w qi qm qo' ps ss di (DDeleting t) do
                        (tr ++ [EvPull t]))
      | DRunning, None :: qo' =>
          Some (mkState pc w qi qm qo' ps ss di DReturned do
                        (tr ++ [EvIprocEnd]))
      | _, _ => None
      end
  | DeallocDel =>
      match dp with
      | DDeleting t =>
          match images_delitem t w with
          | (Ret _, w') =>
              Some (mkState pc w' qi qm qo ps ss di DRunning do
                            (tr ++ [EvDelete t]))
          | (Raise e, w') =>
              Some (mkState pc w' qi qm qo ps ss di (DCrashed e) do tr)
          end
      | _ => None
      end
  | DeallocStop =>
      match dp, di with
      | DReturned, None :: di' =>
          Some (mkState pc w qi qm qo ps ss di' DStopped (do ++ [None])
                        (tr ++ [EvDeallocEnd]))
      | _, _ => None
      end
  end.

Definition step (s s' : state) : Prop := ∃ a, fire a s = Some s'.

(** Running a schedule, for as long as its moves are enabled. *)
Fixpoint run (sched : list action) (s : state) : option state :=
  match sched with
  | [] => Some s
  | a :: sched' => s' ← fire a s; run sched' s'
  end.

(** The iterations the capture loop makes on a feed. *)
Fixpoint captured (now : Time) (feed : list (Time * Frame)) : list (Time * Frame) :=
  match feed with
  | [] => []
  | (t, f) :: feed' =>
      if bool_decide (end_ > now) then (t, f) :: captured t feed' else []
  end.

(** The feed is long enough for the loop to reach its end time. *)
Fixpoint loop_exits (now : Time) (feed : list (Time * Frame)) : bool :=
  match feed with
  | [] => bool_decide (¬ end_ > now)
  | (t, f) :: feed' =>
      if bool_decide (end_ > now) then loop_exits t feed' else true
  end.

(** Projections of the trace. *)
Definition puts (tr : list event) : list Time :=
  omap (λ e, match e with EvPut t => Some t | _ => None end) tr.
Definition emits (tr : list event) : list Time :=
  omap (λ e, match e with EvEmit t => Some t | _ => None end) tr.
Definition pulls (tr : list event) : list Time :=
  omap (λ e, match e with EvPull t => Some t | _ => None end) tr.
Definition deletes (tr : list event) : list Time :=
  omap (λ e, match e with EvDelete t => Some t | _ => None end) tr.
Definition inserts (tr : list event) : list Time :=
  omap (λ e, match e with EvInsert t => Some t | _ => None end) tr.

(** The events of the main process. *)
Definition is_main (e : event) : bool :=
  match e with
  | EvInsert _ | EvPut _ | EvLoopExit _ | EvStopIproc | EvStopDealloc
  | EvDrained => true
  | _ => false
  end.
Definition main_events (tr : list event) : list event := filter is_main tr.




(** The token the main process has inserted and not yet put. *)
Definition pending (p : main_pc) : list Time :=
  match p with Putting t _ => [t] | _ => [] end.
(** The token [deallocate] has pulled and not yet deleted. *)
Definition deleting (d : dealloc_pc) : list Time :=
  match d with DDeleting t => [t] | _ => [] end.
(** The tokens the capture loop has still to read. *)
Definition remaining (p : main_pc) : list Time :=
  match p with
  | Capturing now feed | Putting now feed => (captured now feed).*1
  | _ => []
  end.
Definition stop_sent (p : main_pc) : bool :=
  match p with SendStopDealloc | Draining | Finished => true | _ => false end.
Definition dealloc_stop_sent (p : main_pc) : bool :=
  match p with Draining | Finished => true | _ => false end.
Definition dealloc_done (d : dealloc_pc) : bool :=
  match d with DReturned | DStopped => true | _ => false end.
Definition is_stopped (d : dealloc_pc) : bool :=
  match d with DStopped => true | _ => false end.
Definition is_idle (d : dealloc_pc) : bool :=
  match d with DIdle => true | _ => false end.
Definition is_draining (p : main_pc) : bool :=
  match p with Draining => true | _ => false end.
Definition can_exit (p : main_pc) : bool :=
  match p with
  | Capturing now feed | Putting now feed => loop_exits now feed
  | _ => true
  end.

(** The content of [pipe_iproc], oldest first. *)
Definition pipe (s : state) : list (option Time) :=
  q_out s ++ q_mid s ++ q_in s.

(** In [tr], no [b] happens before an [a] did. *)
Definition before (a b : event) (tr : list event) : Prop :=
  ∀ pre post, tr = pre ++ b :: post → a ∈ pre.

(** What the main process has logged once the loop is over. *)
Definition main_tail (p : main_pc) : list event :=
  match p with
  | Capturing _ _ | Putting _ _ => []
  | SendStopIproc => []
  | SendStopDealloc => [EvStopIproc]
  | Draining => [EvStopIproc; EvStopDealloc]
  | Finished => [EvStopIproc; EvStopDealloc; EvDrained]
  end.
Definition loop_over (p : main_pc) : bool :=
  match p with Capturing _ _ | Putting _ _ => false | _ => true end.

(** What holds of every state the program reaches when the capture loop
    reads the timestamps [toks0], all different. *)
Record run_inv (toks0 : list Time) (s : state) : Prop := mkRunInv {
  inv_feed : toks0 = puts (trace s) ++ pending (pc s) ++ remaining (pc s);
  inv_exit : can_exit (pc s) = true;
  inv_pipe : ∃ toks,
    pipe s = (Some <$> toks)
             ++ (if stop_sent (pc s) && negb (dealloc_done (dpc s))
                 then [None] else [])
    ∧ puts (trace s) = deletes (trace s) ++ deleting (dpc s) ++ toks
    ∧ ∀ k, is_Some (images (world s) !! k)
           ↔ k ∈ pending (pc s) ++ deleting (dpc s) ++ toks;
  inv_done : dealloc_done (dpc s) = true → stop_sent (pc s) = true ∧ pipe s = [];
  inv_ps : postproc_st s = Alive
           ∨ postproc_st s = Stopped ∧ stop_sent (pc s) = true ∧ q_in s = [];
  inv_ss : staller_st s = Alive
           ∨ staller_st s = Stopped ∧ stop_sent (pc s) = true
             ∧ q_in s = [] ∧ q_mid s = [];
  inv_dpc : ∀ e, dpc s ≠ DCrashed e;
  inv_din : dealloc_in s =
            (if is_idle (dpc s) then [Some true] else [])
            ++ (if dealloc_stop_sent (pc s) && negb (is_stopped (dpc s))
                then [None] else []);
  inv_dout : dealloc_out s =
             if is_stopped (dpc s) && is_draining (pc s) then [None] else [];
  inv_stopped : is_stopped (dpc s) = true → dealloc_stop_sent (pc s) = true;
  inv_fin : pc s = Finished → dpc s = DStopped;
  (* the trace *)
  inv_emits : emits (trace s) =
              deletes (trace s) ++ deleting (dpc s) ++ omap id (q_out s);
  inv_pulls : pulls (trace s) = deletes (trace s) ++ deleting (dpc s);
  inv_inserts : inserts (trace s) = puts (trace s) ++ pending (pc s);
  inv_main : ∃ exit_,
    main_events (trace s) =
      (puts (trace s) ≫= λ t, [EvInsert t; EvPut t])
      ++ (EvInsert <$> pending (pc s)) ++ exit_ ++ main_tail (pc s)
    ∧ if loop_over (pc s) then ∃ now, ¬ end_ > now ∧ exit_ = [EvLoopExit now]
      else exit_ = [];
  inv_order_emit : ∀ t, before (EvEmit t) (EvPull t) (trace s);
  inv_order_pull : ∀ t, before (EvPull t) (EvDelete t) (trace s);
  inv_order_iproc : before EvStopIproc EvIprocEnd (trace s);
  inv_order_dealloc : before EvIprocEnd EvDeallocEnd (trace s);
  inv_order_stop : before EvStopDealloc EvDeallocEnd (trace s);
  inv_order_drained : before EvDeallocEnd EvDrained (trace s);
  inv_ends : (dealloc_done (dpc s) = true → EvIprocEnd ∈ trace s)
             ∧ (is_stopped (dpc s) = true → EvDeallocEnd ∈ trace s)
             ∧ (stop_sent (pc s) = true → EvStopIproc ∈ trace s)
             ∧ (dealloc_stop_sent (pc s) = true → EvStopDealloc ∈ trace s);
}.

End Program.
End Program.

(** * What the stage bodies compute *)

(** The stage bodies work on the shared table through lookups and
    in-place updates.  The definitions below name what they compute on
    the frame itself; the properties relate them to the [doTask]
    bodies. *)
Module Meaning.
Section Meaning.
Context {Frame Classifier : Type} `{!Vision Frame Classifier}.

Abbreviation W := (World Frame).

(** [(a, b, c, d, self._color)] *)
Definition tag (color : Color) (r : Rect) : Rect5 :=
  let '(a, b, c, d) := r in (a, b, c, d, color).

(** [minSize] and [maxSize] of the call to [detectMultiScale]:
    [tuple([x/20 for x in size])] and [tuple([x/2 for x in size])], with
    the integer division of Python 2. *)
Definition minSize (image : Frame) : Z * Z :=
  let size := np_shape image in (size.1 `div` 20, size.2 `div` 20).
Definition maxSize (image : Frame) : Z * Z :=
  let size := np_shape image in (size.1 `div` 2, size.2 `div` 2).

(** One [cv2.rectangle] call of the Postprocessor's loop. *)
Definition draw_rect (img : Frame) (r : Rect5) : Frame :=
  let '(x1, y1, x2, y2, color) := r in
  cv2_rectangle img (x1, y1) (x1 + x2, y1 + y2) color.

(** The frame the Postprocessor leaves in the table: the rectangles of
    all branches, in order, then the text lines, the first of which gives
    the dimensions of the frame as columns x rows. *)
Definition annotate (f : Frame) (rects : list (list Rect5)) (fps : string)
  : Frame :=
  let img := foldl draw_rect f (concat rects) in
  let size := np_shape img in
  writeOSD img [pretty size.2 +:+ "x" +:+ pretty size.1; fps].

(** The world with another table. *)
Definition with_images (m : gmap Z Frame) (w : W) : W :=
  mkWorld (clock w) m (stdout w) (window w) (ticks w).

(** [deallocate], lines 134-136, given the timestamps
    [pipe_iproc.results()] yields:
    [for tstamp in pipe_iproc.results(): del images[tstamp]]. *)
Definition deallocate (results : list Time) : M W unit :=
  for_each results images_delitem.

(** The table without the entries of [keys]. *)
Definition without (keys : list Time) (m : gmap Z Frame) : gmap Z Frame :=
  foldl (λ m k, delete k m) m keys.

End Meaning.
End Meaning.

(** * What holds of every run *)
Module Safety.
Section Safety.
Import Program.
Context {Frame Classifier : Type} `{!Vision Frame Classifier}.
Variable end_ : Time.

(** The last value the capture loop read from the clock: the timestamp
    of the last insertion, or the reading [now0] of line 148. *)
Definition last_read (now0 : Time) (tr : list event) : Time :=
  default now0 (last (inserts tr)).

(** What holds of every state the program reaches, whatever the clock
    returns (repeated timestamps included) and whichever worker dies.
    [now0] is the reading of line 148 and [toks0] the timestamps of the
    iterations the loop makes. *)
Record safe_inv (now0 : Time) (toks0 : list Time) (s : state (Frame:=Frame))
  : Prop := mkSafeInv {
  safe_feed : toks0 = inserts (trace s) ++ remaining end_ (pc s);
  safe_read : ∀ n feed, pc s = Capturing n feed ∨ pc s = Putting n feed →
     last_read now0 (trace s) = n;
  safe_exit : loop_over (pc s) = true → ¬ end_ > last_read now0 (trace s);
  safe_inserts : inserts (trace s) = puts (trace s) ++ pending (pc s);
  safe_puts : ∃ lost,
     puts (trace s) = emits (trace s) ++ omap id (q_mid s) ++ lost
                      ++ omap id (q_in s)
     ∧ (postproc_st s = Alive → lost = []);
  safe_emits : emits (trace s) = pulls (trace s) ++ omap id (q_out s);
  safe_pulls : ∃ held,
     pulls (trace s) = deletes (trace s) ++ held
     ∧ ((∀ e, dpc s ≠ DCrashed e) → held = deleting (dpc s));
  safe_size : (size (images (world s)) + length (deletes (trace s))
               ≤ length (inserts (trace s)))%nat;
  safe_dom : ∀ k, is_Some (images (world s) !! k) → k ∈ inserts (trace s);
  safe_staller : ∀ e, staller_st s ≠ Died e;
  safe_out : dealloc_out s ≠ [] → dpc s = DStopped;
  safe_fin : pc s = Finished → dpc s = DStopped;
  safe_stop : None ∈ q_mid s ++ q_out s ∨ dealloc_done (dpc s) = true →
     postproc_st s = Stopped;
}.

End Safety.
End Safety.

(** * A test rig *)

(** A concrete camera frame and two kinds of classifier, to run the
    definitions on. *)
Module Sim.

Record frame : Type := mkFrame {
  rows : Z;
  cols : Z;
  drawn : list (Z * Z * Z * Z * Color);   (* rectangles, as (x1, y1, x2, y2, color) *)
  osd : list string;
}.

Inductive classifier : Type :=
| Finds (color : Color) (rects : list Rect)   (* always reports [rects] *)
| Broken (color : Color).                     (* always raises *)

#[export] Instance sim_vision : Vision frame classifier := {|
  np_shape f := (rows f, cols f);
  detectMultiScale c f minSize maxSize :=
    match c with
    | Finds _ rects => Ret rects
    | Broken _ => Raise (Failure "detectMultiScale")
    end;
  cascade_color c := match c with Finds col _ | Broken col => col end;
  cv2_rectangle f p1 p2 col :=
    mkFrame (rows f) (cols f) (drawn f ++ [(p1.1, p1.2, p2.1, p2.2, col)]) (osd f);
  writeOSD f lines := mkFrame (rows f) (cols f) (drawn f) lines;
  fps_text ts := pretty (length ts) +:+ " ticks";
  (* a frame without rows cannot be shown *)
  cv2_imshow name f := if bool_decide (rows f > 0) then Ret tt
                       else Raise (Failure "imshow");
|}.

Definition vga : frame := mkFrame 480 640 [] [].
Definition blank : frame := mkFrame 0 0 [] [].

(** Three reads of the clock and the camera, for a loop that ends at 10. *)
Definition feed3 : list (Time * frame) := [(1, vga); (7, vga); (12, vga)].
(** The clock returns 5 twice. *)
Definition feed_collision : list (Time * frame) :=
  [(5, vga); (5, blank); (20, vga)].

(** An empty table at time [now]. *)
Definition world0 (now : Time) : World frame := mkWorld now ∅ [] [] [].
(** A table that holds the frame [f] under [tstamp]. *)
Definition world1 (now tstamp : Time) (f : frame) : World frame :=
  mkWorld now {[tstamp := f]} [] [] [].

End Sim.

(** * Properties of the workers *)
Section WorkerFacts.
Context {Frame Classifier : Type} `{!Vision Frame Classifier}.
Implicit Types (w : World Frame) (t : Z).

Ltac run_monad :=
  unfold mbind, M_bind, mret, M_ret, modify, call, lift, with_local,
    try_except in *; simpl in *.

(** The Staller returns the timestamp of its task and leaves everything
    but the clock as it was. *)
Lemma Staller_doTask_eq t results w :
  Staller_doTask (t, results) w =
  (Ret t, mkWorld (clock w + Z.max 0 (stall_duration (clock w) t))
                  (images w) (stdout w) (window w) (ticks w)).
Proof.
  unfold Staller_doTask, datetime_now, time_sleep. run_monad.
  case_bool_decide; simpl.
  - by rewrite Z.max_r by lia.
  - rewrite Z.max_l by lia. rewrite Z.add_0_r. by destruct w.
Qed.

(** Drawing rectangles into a frame that is in the table succeeds and
    changes that frame only. *)
Lemma draw_present (rects : list Rect5) t w f :
  images w !! t = Some f →
  ∃ f', for_each rects (λ '(x1, y1, x2, y2, color),
          images_update t
            (λ img, cv2_rectangle img (x1, y1) (x1 + x2, y1 + y2) color)) w
        = (Ret tt, mkWorld (clock w) (<[t := f']> (images w))
                           (stdout w) (window w) (ticks w)).
Proof.
  revert w f. induction rects as [|[[[[x1 y1] x2] y2] color] rects IH];
    intros w f Hw.
  - exists f. cbn. rewrite insert_id by done. by destruct w.
  - cbn [for_each]. unfold mbind at 1, M_bind at 1.
    unfold images_update at 1, images_getitem, images_setitem.
    unfold mbind at 1, M_bind at 1. rewrite Hw. unfold modify.
    edestruct (IH (mkWorld (clock w)
                 (<[t := cv2_rectangle f (x1, y1) (x1 + x2, y1 + y2) color]> (images w))
                 (stdout w) (window w) (ticks w))) as [f' Hf'].
    { simpl. apply lookup_insert_eq. }
    exists f'. rewrite Hf'. simpl. by rewrite insert_insert_eq.
Qed.

Lemma draw_missing (rects : list Rect5) t w :
  images w !! t = None → rects ≠ [] →
  for_each rects (λ '(x1, y1, x2, y2, color),
          images_update t
            (λ img, cv2_rectangle img (x1, y1) (x1 + x2, y1 + y2) color)) w
  = (Raise (KeyError t), w).
Proof.
  intros Hw Hne. destruct rects as [|[[[[x1 y1] x2] y2] color] rects]; [done|].
  simpl. run_monad. unfold images_update, images_getitem. run_monad.
  by rewrite Hw.
Qed.

(** With its frame in the table the Postprocessor returns the timestamp;
    the table keeps its keys. *)
Lemma Postprocessor_present t rects w f :
  images w !! t = Some f →
  ∃ f', Postprocessor_doTask (t, rects) w =
    (Ret t, mkWorld (clock w) (<[t := f']> (images w)) (stdout w) (window w)
                    (ticks w ++ [clock w])).
Proof.
  intros Hw. unfold Postprocessor_doTask.
  destruct (draw_present (concat rects) t w f Hw) as [f1 Hf1].
  run_monad. rewrite Hf1. simpl.
  unfold images_getitem, framerate_tick, images_setitem. run_monad.
  rewrite lookup_insert_eq. simpl. rewrite lookup_insert_eq. simpl.
  rewrite insert_insert_eq. eauto.
Qed.

(** X1: when the table has no frame under its timestamp, the
    Postprocessor raises [KeyError] for that timestamp and changes
    nothing, whatever rectangles it was given. *)
Lemma Postprocessor_missing t rects w :
  images w !! t = None →
  Postprocessor_doTask (t, rects) w = (Raise (KeyError t), w).
Proof.
  intros Hw. unfold Postprocessor_doTask. run_monad.
  destruct (decide (concat rects = [])) as [->|Hne]; simpl.
  - run_monad. unfold images_getitem. by rewrite Hw.
  - by rewrite draw_missing.
Qed.

(** The Detector's loop appends one tagged rectangle per detection. *)
Lemma Detector_loop (color : Color) (rects : list Rect) w (result : list Rect5) :
  for_each rects (λ '(a, b, c, d),
    modify (λ '(w, result), (w, result ++ [(a, b, c, d, color)]))) (w, result)
  = (Ret tt, (w, result ++ map (λ '(a, b, c, d), (a, b, c, d, color)) rects)).
Proof.
  revert result. induction rects as [|[[[a b] c] d] rects IH]; intros result.
  - cbn. by rewrite app_nil_r.
  - cbn [for_each map]. unfold mbind at 1, M_bind at 1. unfold modify at 1.
    rewrite IH. by rewrite <- app_assoc.
Qed.

(** What the [try] block of the Detector does. *)
Lemma Detector_try_eq (c : Classifier) color t w :
  Detector_try c color t (w, []) =
  match images w !! t with
  | None => (Raise (KeyError t), (w, []))
  | Some image =>
      let size := np_shape image in
      match detectMultiScale c image (size.1 `div` 20, size.2 `div` 20)
                             (size.1 `div` 2, size.2 `div` 2) with
      | Raise e => (Raise e, (w, []))
      | Ret rects => (Ret tt, (w, map (λ '(a, b, c, d), (a, b, c, d, color)) rects))
      end
  end.
Proof.
  unfold Detector_try, images_getitem.
  unfold mbind, M_bind, mret, M_ret, call, lift.
  destruct (images w !! t) as [image|]; simpl; [|done].
  destruct (detectMultiScale _ _ _ _) as [rects|e]; simpl; [|done].
  case_bool_decide as Hr.
  - by rewrite Detector_loop.
  - by subst.
Qed.

Lemma Detector_doTask_eq (c : Classifier) color t w :
  Detector_doTask c color t w =
  match Detector_try c color t (w, []) with
  | (Ret _, (w', result)) => (Ret result, w')
  | (Raise _, (w', result)) => (Ret result, logged "Error in detector !!!" w')
  end.
Proof.
  unfold Detector_doTask. run_monad.
  destruct (Detector_try c color t (w, [])) as [[?|?] [w' result]]; done.
Qed.

Lemma Viewer_doTask_eq t w :
  Viewer_doTask t w =
  match Viewer_try t w with
  | (Ret _, w') => (Ret t, w')
  | (Raise _, w') => (Ret t, logged "Error in viewer !!!" w')
  end.
Proof.
  unfold Viewer_doTask. run_monad.
  destruct (Viewer_try t w) as [[?|?] w']; done.
Qed.








End WorkerFacts.

(** * Properties of an Ordered stage *)
Section OrderedFacts.
Import Ordered.
Local Open Scope nat_scope.
Context {T R : Type} (doTask : T → R → Prop) (pool : nat).
Implicit Types (s : stage (T:=T) (R:=R)) (tasks : list T).

(** Every move uses up stage_fuel: an Ordered stage cannot run forever. *)
Lemma ordered_step_fuel s s' :
  stage_step doTask pool s s' → stage_fuel s' < stage_fuel s.
Proof.
  destruct 1 as [t q n run fin out Hp|q n run fin out i t r Hi Hr|q n run fin out r Hr];
    unfold stage_fuel; cbn [inbox running finished length].
  - rewrite map_size_insert. destruct (run !! n); simpl; lia.
  - pose proof (map_size_ne_0_lookup_2 run i (mk_is_Some _ _ Hi)).
    rewrite map_size_delete, Hi, map_size_insert.
    destruct (fin !! i); simpl; lia.
  - pose proof (map_size_ne_0_lookup_2 fin _ (mk_is_Some _ _ Hr)).
    rewrite map_size_delete, Hr. simpl. lia.
Qed.

Lemma ordered_sn s : sn (stage_step doTask pool) s.
Proof.
  apply (wf_projected (<)%nat stage_fuel).
  - intros x y Hxy. by apply ordered_step_fuel.
  - apply lt_wf.
Qed.

Lemma ordered_inv_init tasks : stage_inv doTask tasks (stage_init tasks).
Proof.
  split; simpl; try done; try lia.
Qed.

Lemma ordered_inv_step tasks s s' :
  stage_inv doTask tasks s → stage_step doTask pool s s' →
  stage_inv doTask tasks s'.
Proof.
  intros [Hin Htk Hrun Hfin Hem Het Hcov] Hstep.
  destruct Hstep as [t q n run fin out Hp|q n run fin out i t r Hi Hr|q n run fin out r Hr];
    simpl in *.
  - (* take *)
    assert (tasks !! n = Some t) as Hn.
    { rewrite <- (Nat.add_0_r n), <- lookup_drop, Hin. done. }
    pose proof (lookup_lt_Some _ _ _ Hn).
    split; simpl; try done; try lia.
    + rewrite (drop_S _ _ _ Hn) in Hin. by simplify_eq.
    + intros i t' Hi. destruct (decide (i = n)) as [->|Hne].
      * rewrite lookup_insert_eq in Hi. simplify_eq. split_and!; try done; try lia.
        destruct (fin !! n) eqn:E; [|done].
        apply Hfin in E. lia.
      * rewrite lookup_insert_ne in Hi by done.
        destruct (Hrun _ _ Hi) as (?&?&?). split_and!; try done; lia.
    + intros i r Hi. destruct (Hfin _ _ Hi) as [? ?]. split; [done|lia].
    + intros i Hi. destruct (decide (i = n)) as [->|Hne].
      * left. rewrite lookup_insert_eq. eauto.
      * rewrite lookup_insert_ne by done. apply Hcov. lia.
  - (* finish *)
    destruct (Hrun _ _ Hi) as (Ht & Hrange & Hnone).
    split; simpl; try done.
    + intros j t' Hj. destruct (decide (j = i)) as [->|Hne].
      * by rewrite lookup_delete_eq in Hj.
      * rewrite lookup_delete_ne in Hj by done.
        destruct (Hrun _ _ Hj) as (?&?&?).
        split_and!; [done|lia|lia|by rewrite lookup_insert_ne].
    + intros j r' Hj. destruct (decide (j = i)) as [->|Hne].
      * rewrite lookup_insert_eq in Hj. simplify_eq. eauto.
      * rewrite lookup_insert_ne in Hj by done. eauto.
    + intros j Hj. destruct (decide (j = i)) as [->|Hne].
      * right. rewrite lookup_insert_eq. eauto.
      * rewrite lookup_delete_ne, lookup_insert_ne by done. eauto.
  - (* release *)
    destruct (Hfin _ _ Hr) as [(t & Ht & Hd) Hrange].
    split; simpl; try done.
    + intros j t' Hj. destruct (Hrun _ _ Hj) as (?&?&Hn).
      assert (j ≠ length out) by (intros ->; congruence).
      rewrite length_app; simpl. split_and!; try done; try lia.
      by rewrite lookup_delete_ne.
    + intros j r' Hj. destruct (decide (j = length out)) as [->|Hne].
      * by rewrite lookup_delete_eq in Hj.
      * rewrite lookup_delete_ne in Hj by done.
        destruct (Hfin _ _ Hj) as [? ?]. rewrite length_app; simpl.
        split; [done|lia].
    + rewrite length_app; simpl. rewrite Nat.add_1_r.
      rewrite (take_S_r _ _ _ Ht). apply Forall2_app; [done|]. by constructor.
    + rewrite length_app; simpl. lia.
    + intros j Hj. rewrite length_app in Hj; simpl in Hj.
      assert (j ≠ length out) by lia.
      rewrite lookup_delete_ne by done. apply Hcov. lia.
Qed.

Lemma ordered_inv_reachable tasks s :
  rtc (stage_step doTask pool) (stage_init tasks) s → stage_inv doTask tasks s.
Proof.
  intros Hrtc. apply rtc_ind_r with (x:=stage_init tasks) (P:=stage_inv doTask tasks) in Hrtc;
    eauto using ordered_inv_init, ordered_inv_step.
Qed.

(** If every task function call returns, a stage with at least one
    worker that cannot move has released a result for every task. *)
Lemma ordered_inv_final tasks s :
  (0 < pool)%nat → (∀ t, ∃ r, doTask t r) →
  stage_inv doTask tasks s → nf (stage_step doTask pool) s → Forall2 doTask tasks (emitted s).
Proof.
  intros Hpool Htot [Hin Htk Hrun Hfin Hem Het Hcov] Hnf.
  destruct s as [q n run fin out]; simpl in *.
  assert (run = ∅) as ->.
  { apply map_empty. intros i. destruct (run !! i) as [t|] eqn:E; [|done].
    destruct (Htot t) as [r Hr]. destruct Hnf. eexists. by eapply Ordered.step_finish. }
  assert (q = []) as ->.
  { destruct q as [|t q]; [done|]. destruct Hnf. eexists. eapply Ordered.step_take.
    by rewrite map_size_empty. }
  assert (length out = n) as Hlen.
  { destruct (decide (length out = n)) as [|Hne]; [done|].
    destruct (Hcov (length out)) as [[? Hx]|[r Hr]]; [lia|by rewrite lookup_empty in Hx|].
    destruct Hnf. eexists. by eapply Ordered.step_release. }
  apply drop_nil_inv in Hin. assert (n = length tasks) as -> by lia.
  rewrite Hlen, take_ge in Hem by lia. done.
Qed.

End OrderedFacts.

(** * Properties of the program *)
Section ProgramFacts.
Import Program.
Context {Frame Classifier : Type} `{!Vision Frame Classifier}.
Variable end_ : Z.

Implicit Types (tr : list event) (e : event) (s : state (Frame:=Frame)).
Implicit Types (feed : list (Z * Frame)).

Lemma puts_snoc tr e :
  puts (tr ++ [e]) = puts tr ++ match e with EvPut t => [t] | _ => [] end.
Proof. unfold puts. rewrite omap_app. f_equal. by destruct e. Qed.
Lemma emits_snoc tr e :
  emits (tr ++ [e]) = emits tr ++ match e with EvEmit t => [t] | _ => [] end.
Proof. unfold emits. rewrite omap_app. f_equal. by destruct e. Qed.
Lemma pulls_snoc tr e :
  pulls (tr ++ [e]) = pulls tr ++ match e with EvPull t => [t] | _ => [] end.
Proof. unfold pulls. rewrite omap_app. f_equal. by destruct e. Qed.
Lemma deletes_snoc tr e :
  deletes (tr ++ [e]) = deletes tr ++ match e with EvDelete t => [t] | _ => [] end.
Proof. unfold deletes. rewrite omap_app. f_equal. by destruct e. Qed.
Lemma inserts_snoc tr e :
  inserts (tr ++ [e]) = inserts tr ++ match e with EvInsert t => [t] | _ => [] end.
Proof. unfold inserts. rewrite omap_app. f_equal. by destruct e. Qed.
Lemma main_events_snoc tr e :
  main_events (tr ++ [e]) = main_events tr ++ if is_main e then [e] else [].
Proof. unfold main_events. rewrite filter_app. f_equal. by destruct e. Qed.

Lemma emits_elem t tr : t ∈ emits tr → EvEmit t ∈ tr.
Proof.
  unfold emits. rewrite list_elem_of_omap. intros (e & He & Heq).
  destruct e; simplify_eq. done.
Qed.
Lemma pulls_elem t tr : t ∈ pulls tr → EvPull t ∈ tr.
Proof.
  unfold pulls. rewrite list_elem_of_omap. intros (e & He & Heq).
  destruct e; simplify_eq. done.
Qed.

Lemma before_nil a b : before a b [].
Proof. intros pre post H. by destruct pre. Qed.

Lemma before_snoc a b tr e :
  before a b tr → (e = b → a ∈ tr) → before a b (tr ++ [e]).
Proof.
  intros Hb He pre post Heq.
  destruct (decide (post = [])) as [->|Hne].
  - apply app_inj_tail in Heq as [-> ->]. auto.
  - destruct (exists_last Hne) as (post' & e' & ->).
    rewrite app_comm_cons, app_assoc in Heq.
    apply app_inj_tail in Heq as [-> ->]. by eapply Hb.
Qed.

(** The shape of a queue that holds tokens and then, maybe, the stop
    task. *)
Lemma shape_cons_some (t : Z) rest toks (b : bool) :
  Some t :: rest = (Some <$> toks) ++ (if b then [None] else []) →
  ∃ toks', toks = t :: toks'
           ∧ rest = (Some <$> toks') ++ (if b then [None] else []).
Proof.
  destruct toks as [|t' toks']; simpl.
  - by destruct b.
  - intros; simplify_eq. eauto.
Qed.

Lemma shape_mid_none (l1 l2 : list (option Z)) toks (b : bool) :
  l1 ++ None :: l2 = (Some <$> toks) ++ (if b then [None] else []) →
  l2 = [] ∧ b = true ∧ l1 = Some <$> toks.
Proof.
  revert l1. induction toks as [|t toks IH]; intros l1; simpl.
  - destruct b; destruct l1 as [|? [|? ?]]; simpl; intros; simplify_eq; done.
  - destruct l1 as [|x l1]; simpl; intros Heq; simplify_eq.
    destruct (IH _ H0) as (?&?&?). by subst.
Qed.


Ltac tr_simpl :=
  rewrite ?puts_snoc, ?emits_snoc, ?pulls_snoc, ?deletes_snoc, ?inserts_snoc,
    ?main_events_snoc; simpl; rewrite ?app_nil_r.

Ltac order :=
  intros; apply before_snoc; [by auto | intros ?; simplify_eq].

(** Membership in lists built with [++] and [::]. *)
Ltac elems :=
  repeat (rewrite elem_of_app || rewrite elem_of_cons || rewrite elem_of_nil);
  intuition (subst; first [done | auto]).

Lemma program_inv_init now feed :
  loop_exits end_ now feed = true →
  run_inv end_ (captured end_ now feed).*1 (init now feed).
Proof.
  intros Hex. split; simpl; try done.
  - exists []. split_and!; try done. intros k. rewrite lookup_empty.
    split; [by intros []|by intros ?%elem_of_nil].
  - by left.
  - by left.
  - by exists [].
  - intros. apply before_nil.
  - intros. apply before_nil.
  - apply before_nil.
  - apply before_nil.
  - apply before_nil.
  - apply before_nil.
Qed.

Ltac solve_ends :=
  split_and!; intros; rewrite ?elem_of_app, ?list_elem_of_singleton;
  first [done | congruence | by auto | by left; auto | by right].

Ltac start Hfire :=
  injection Hfire as <-; unfold pipe in *; simpl in *; rewrite ?app_nil_r in *;
  split; unfold pipe; simpl; tr_simpl; try done; try (by order);
  try solve_ends; try (by left); try (by eauto).

Lemma program_inv_fire toks0 a s s' :
  NoDup toks0 → run_inv end_ toks0 s → fire end_ a s = Some s' → run_inv end_ toks0 s'.
Proof.
  intros Hnd [Hfeed Hexit (toks & Hpipe & Hflow & Hdom) Hdone Hps Hss Hdpc
              Hdin Hdout Hstopped Hfin Hemits Hpulls Hins
              (exit_ & Hmain & Hexit_) Hoe Hop Hoi Hod Hos Hodr
              (He1 & He2 & He3 & He4)].
  destruct s as [pc w qi qm qo ps ss di dp do tr]. unfold pipe in *.
  simpl in * |-. intros Hfire.
  destruct a; unfold fire in Hfire; cbv beta iota zeta in Hfire.
  - (* CapRead *)
    destruct pc as [now [|[t f] feed]| | | | |]; try done.
    case_bool_decide as Hend; [|done]. simpl in *.
    rewrite bool_decide_true in Hfeed, Hexit by done.
    start Hfire.
    + exists toks. split_and!; rewrite ?app_nil_r; try done. intros k.
      rewrite lookup_insert. case_decide; subst.
      * split; [intros _; elems|eauto].
      * rewrite Hdom. elems.
    + by rewrite Hins.
    + exists exit_. subst exit_. split; [|done].
      rewrite Hmain. simpl. by rewrite !app_nil_r.
  - (* CapPut *)
    destruct pc as [|t feed| | | |]; try done.
    start Hfire.
    + by rewrite <- app_assoc.
    + exists (toks ++ [t]). rewrite fmap_app. split_and!.
      * by rewrite ?app_nil_r, <- Hpipe, <- !app_assoc.
      * rewrite Hflow. by rewrite <- ?app_assoc.
      * intros k. rewrite Hdom. elems.
    + intros Hd. by destruct (Hdone Hd).
    + destruct Hps as [?|(?&?&?)]; [by left|done].
    + destruct Hss as [?|(?&?&?)]; [by left|done].
    + exists exit_. subst exit_. split; [|done].
      rewrite Hmain, bind_app. simpl. by rewrite ?app_nil_r, <- ?app_assoc.
  - (* CapExit *)
    destruct pc as [now feed| | | | |]; try done.
    case_bool_decide as Hend; [done|].
    start Hfire.
    + rewrite Hfeed. destruct feed as [|[??]?]; simpl;
        rewrite ?bool_decide_false by done; simpl; by rewrite app_nil_r.
    + exists toks. by rewrite app_nil_r.
    + exists [EvLoopExit now]. subst exit_. split; [|by eauto].
      rewrite Hmain. simpl. by rewrite !app_nil_r.
  - (* StopIproc *)
    destruct pc; try done.
    start Hfire.
    + assert (dealloc_done dp = false) as Hdd.
      { destruct (dealloc_done dp); [by destruct Hdone|done]. }
      rewrite Hdd in *. simpl in *. rewrite ?app_nil_r in *.
      exists toks. split_and!; try done.
      by rewrite <- Hpipe, <- !app_assoc.
    + intros Hd. by destruct (Hdone Hd).
    + destruct Hps as [?|(?&?&?)]; [by left|done].
    + destruct Hss as [?|(?&?&?)]; [by left|done].
    + destruct Hexit_ as (now & ? & ->). exists [EvLoopExit now].
      split; [|by eauto]. rewrite Hmain. simpl. by rewrite ?app_nil_r, <- ?app_assoc.
  - (* StopDealloc *)
    destruct pc; try done.
    assert (is_stopped dp = false) as Hns.
    { destruct (is_stopped dp); [|done]. by specialize (Hstopped eq_refl). }
    start Hfire.
    + rewrite Hns in *. simpl in *. by rewrite Hdin.
    + by rewrite Hns in *.
    + destruct Hexit_ as (now & ? & ->). exists [EvLoopExit now].
      split; [|by eauto]. rewrite Hmain. simpl. by rewrite <- ?app_assoc.
  - (* Drain *)
    destruct pc; try done. destruct do as [|[[]|] do']; try done.
    + destruct (is_stopped dp); simpl in *; simplify_eq.
    + assert (is_stopped dp = true ∧ do' = []) as [Hst ->].
      { destruct (is_stopped dp); simpl in *; by simplify_eq. }
      start Hfire.
      * by rewrite andb_false_r.
      * by destruct dp.
      * destruct Hexit_ as (now & ? & ->). exists [EvLoopExit now].
        split; [|by eauto]. rewrite Hmain. simpl. by rewrite <- ?app_assoc.
      * order. auto.
  - (* Postproc *)
    destruct ps; try done. destruct qi as [|[t|] qi']; try done.
    + assert (t ∈ toks) as Ht.
      { assert (Some t ∈ qo ++ qm ++ Some t :: qi') as Hin by elems.
        rewrite Hpipe, elem_of_app in Hin. destruct Hin as [Hin|Hin].
        - by apply (list_elem_of_fmap_inj_2 Some) in Hin.
        - destruct (_ && _); [by apply list_elem_of_singleton in Hin|].
          by apply elem_of_nil in Hin. }
      destruct (proj2 (Hdom t)) as [f Hf]; [elems|].
      destruct (Postprocessor_present t rects (at_time now w) f Hf) as [f' Hpp].
      rewrite Hpp in Hfire.
      start Hfire.
      * exists toks. split_and!; [by rewrite <- Hpipe, <- ?app_assoc|done|].
        intros k. rewrite <- Hdom, lookup_insert. case_decide; subst; [|done].
        split; eauto.
      * intros Hd. destruct (Hdone Hd) as [_ Hx]. by destruct qo, qm.
      * destruct Hss as [?|(?&?&?&?)]; [by left|done].
    + rewrite (app_assoc qo qm) in Hpipe.
      apply shape_mid_none in Hpipe as (-> & Hflag & Hq).
      apply andb_true_iff in Hflag as [Hsent Hnd'].
      start Hfire.
      * exists toks. rewrite Hsent, Hnd'. simpl.
        split_and!; try done. by rewrite app_assoc, Hq.
      * destruct Hss as [?|(?&?&?&?)]; [by left|done].
  - (* Stall *)
    destruct ss; try done. destruct qm as [|[t|] qm']; try done.
    + rewrite Staller_doTask_eq in Hfire.
      start Hfire.
      * exists toks. split_and!; [by rewrite <- Hpipe, <- ?app_assoc|done|done].
      * intros Hd. destruct (Hdone Hd) as [_ Hx]. by destruct qo.
      * rewrite omap_app, Hemits. simpl. by rewrite <- ?app_assoc.
    + apply shape_mid_none in Hpipe as (Hnil & Hflag & Hq).
      apply app_eq_nil in Hnil as [-> ->].
      apply andb_true_iff in Hflag as [Hsent Hnd'].
      start Hfire.
      * exists toks. rewrite Hsent, Hnd'. simpl. by rewrite Hq.
      * rewrite omap_app, Hemits. simpl. by rewrite ?app_nil_r.
  - (* DeallocStart *)
    destruct dp; try done. destruct di as [|[b|] di']; try done.
    simpl in Hdin. injection Hdin as _ ->.
    start Hfire. intros Hp. by specialize (Hfin Hp).
  - (* DeallocPull *)
    destruct dp; try done. destruct qo as [|[t|] qo']; try done.
    + apply shape_cons_some in Hpipe as (toks' & -> & Hpipe).
      start Hfire.
      * intros Hp. by specialize (Hfin Hp).
      * by rewrite Hpulls.
      * order. apply emits_elem. rewrite Hemits. simpl. elems.
    + apply (shape_mid_none []) in Hpipe as (Hnil & Hflag & Hq).
      apply app_eq_nil in Hnil as [-> Hnil].
      apply app_eq_nil in Hnil as [-> ->].
      apply andb_true_iff in Hflag as [Hsent Hnd'].
      destruct toks; [|done].
      start Hfire.
      * exists []. rewrite andb_false_r, !app_nil_r. by split_and!.
      * intros Hp. by specialize (Hfin Hp).
      * order. auto.
  - (* DeallocDel *)
    destruct dp as [| |t| | |]; try done.
    destruct (proj2 (Hdom t)) as [f Hf]; [simpl; elems|].
    unfold images_delitem in Hfire. rewrite Hf in Hfire.
    assert (t ∉ pending pc ++ toks) as Hfresh.
    { subst toks0. rewrite Hflow in Hnd. simpl in Hnd.
      rewrite <- !app_assoc in Hnd. apply NoDup_app in Hnd as (_ & _ & Hnd).
      simpl in Hnd. apply NoDup_cons in Hnd as [Hnd _].
      intros Hin. apply Hnd. revert Hin. elems. }
    start Hfire.
    + exists toks. split_and!.
      * by rewrite andb_true_r in *.
      * by rewrite Hflow, <- ?app_assoc.
      * intros k. rewrite lookup_delete. case_decide; subst.
        -- split; [by intros []|done].
        -- rewrite Hdom. simpl. elems.
    + intros Hp. by specialize (Hfin Hp).
    + by rewrite Hemits, <- ?app_assoc.
    + order. apply pulls_elem. rewrite Hpulls. simpl. elems.
  - (* DeallocStop *)
    destruct dp; try done. destruct di as [|[b|] di']; try done.
    simpl in Hdin.
    assert (dealloc_stop_sent pc = true ∧ di' = []) as [Hsent ->].
    { destruct (dealloc_stop_sent pc); simpl in *; by simplify_eq. }
    assert (pc = Draining) as ->.
    { destruct pc; try done. by specialize (Hfin eq_refl). }
    start Hfire.
    + exists toks. by rewrite app_nil_r.
    + by rewrite Hdout.
    + order. auto.
    + order. auto.
Qed.




Lemma program_inv_reachable now feed s :
  loop_exits end_ now feed = true →
  NoDup (captured end_ now feed).*1 →
  rtc (step end_) (init now feed) s →
  run_inv end_ (captured end_ now feed).*1 s.
Proof.
  intros Hex Hnd Hrtc.
  apply rtc_ind_r with (x:=init now feed) (P:=run_inv (Frame:=Frame) end_ (captured end_ now feed).*1)
    in Hrtc; [done|by apply program_inv_init|].
  intros y z _ [a Ha] Hy. by eapply program_inv_fire.
Qed.





End ProgramFacts.

(** * The claims *)
Section Claims.
Import Program.
Context {Frame Classifier : Type} `{!Vision Frame Classifier}.
Implicit Types (w : World Frame) (t : Z) (feed : list (Z * Frame)).




(** C9 (amended): on a task [(tstamp, results)] the Staller returns
    [tstamp], the timestamp of the task and not the task: the results are
    dropped.  Nothing but the clock is changed. *)
Theorem Staller_forwards_the_token t results w :
  ∃ w', Staller_doTask (t, results) w = (Ret t, w')
        ∧ Staller_output t = TToken (task_token (Staller_input (t, results)))
        ∧ images w' = images w ∧ stdout w' = stdout w
        ∧ window w' = window w ∧ ticks w' = ticks w.
Proof. rewrite Staller_doTask_eq. eexists. by split_and!. Qed.

(** C4: the Staller computes [floor - (now - tstamp)] with a floor of two
    seconds; when that duration is positive it sleeps for exactly that
    long, otherwise it returns at once with nothing changed; either way
    the task leaves at [max now (tstamp + floor)], never earlier than the
    floor after its timestamp. *)
Theorem Staller_latency_floor t results w :
  (stall_duration (clock w) t = 2000000 - (clock w - t))%Z
  ∧ ∃ w', Staller_doTask (t, results) w = (Ret t, w')
      ∧ ((stall_duration (clock w) t > 0)%Z →
           clock w' = (clock w + stall_duration (clock w) t)%Z)
      ∧ ((stall_duration (clock w) t ≤ 0)%Z → w' = w)
      ∧ clock w' = Z.max (clock w) (t + min_age)
      ∧ (min_age ≤ clock w' - t)%Z.
Proof.
  split; [done|]. rewrite Staller_doTask_eq. eexists. split; [done|].
  unfold stall_duration, min_age. simpl. split_and!; try lia.
  intros Hd. rewrite Z.max_l by lia. rewrite Z.add_0_r. by destruct w.
Qed.



End Claims.

(** C2: an Ordered stage with at least one worker, whose task function
    returns on every task, cannot run forever; whatever the order in
    which its workers finish, the results it has released at any moment
    answer the first tasks submitted, in their order, and once it cannot
    move it has released one result per task, in the order of the tasks.
    Every worker class of the program derives from [mpipe.OrderedWorker]. *)
Theorem ordered_stage_preserves_order {T R : Type}
        (doTask : T → R → Prop) (pool : nat) (tasks : list T) :
  (0 < pool)%nat → (∀ x, ∃ r, doTask x r) →
  (∀ c, base_class c = OrderedWorker)
  ∧ sn (Ordered.stage_step doTask pool) (Ordered.stage_init tasks)
  ∧ ∀ s, rtc (Ordered.stage_step doTask pool) (Ordered.stage_init tasks) s →
      Forall2 doTask (take (length (Ordered.emitted s)) tasks) (Ordered.emitted s)
      ∧ (nf (Ordered.stage_step doTask pool) s →
           Forall2 doTask tasks (Ordered.emitted s)
           ∧ ∀ f : T → R, (∀ x r, doTask x r → r = f x) →
               Ordered.emitted s = f <$> tasks).
Proof.
  intros Hpool Htot. split_and!.
  - by intros [].
  - apply ordered_sn.
  - intros s Hs. pose proof (ordered_inv_reachable _ _ _ _ Hs) as Hinv.
    split; [apply Hinv|]. intros Hnf.
    pose proof (ordered_inv_final _ _ _ _ Hpool Htot Hinv Hnf) as Hall.
    split; [done|]. intros f Hf. clear -Hall Hf.
    induction Hall as [|x r ?? Hx _ IH]; [done|].
    simpl. by rewrite (Hf _ _ Hx), IH.
Qed.

(** * The claims on the test rig *)
Section Concrete.
Import Program Sim.

(** C6: the Postprocessor does not guard its lookups: on a timestamp that
    is not in the table it raises [KeyError] where the Detector and the
    Viewer print their error line and return, and the worker that runs it
    stops with the tasks behind unprocessed.  In the program this happens
    when the clock returned the same timestamp twice and the first copy
    was deallocated before the second reached the Postprocessor. *)
Theorem Postprocessor_raises_on_missing_frame :
  Postprocessor_doTask (6, [[]]) (world1 9 5 vga)
  = (Raise (KeyError 6), world1 9 5 vga)
  ∧ worker_run Postprocessor_doTask [(6, [[]]); (5, [[]])] (world1 9 5 vga)
    = ([], Raise (KeyError 6), world1 9 5 vga)
  ∧ Detector_doTask (Finds (0, 0, 255) [(1, 2, 3, 4)]) (0, 0, 255) 6 (world1 9 5 vga)
    = (Ret [], logged "Error in detector !!!" (world1 9 5 vga))
  ∧ Viewer_doTask 6 (world1 9 5 vga)
    = (Ret 6, logged "Error in viewer !!!" (world1 9 5 vga))
  ∧ postproc_st <$>
      run (Classifier:=classifier) 10
        [CapRead; CapPut; CapRead; CapPut; Postproc [] 6; Stall [5] 7;
         DeallocStart; DeallocPull; DeallocDel; Postproc [] 2000008]
        (init 0 feed_collision)
    = Some (Died (KeyError 5)).
Proof. split_and!; by vm_compute. Qed.


(** C9 (as stated, refuted): given the task [(5, [5])] the Staller puts
    [5] on its output, which is not the task it received. *)
Lemma Staller_output_is_not_its_input :
  (Staller_doTask (5, [5]) (world0 3000005)).1 = Ret 5
  ∧ Staller_output 5 ≠ Staller_input (5, [5]).
Proof. split; [by vm_compute|done]. Qed.






(** C2 on three tasks, two workers, and a task function that returns its
    task. *)
Lemma ordered_stage_preserves_order_witness :
  sn (Ordered.stage_step (λ x r : Z, r = x) 2) (Ordered.stage_init [3; 1; 2])
  ∧ ∀ s, rtc (Ordered.stage_step (λ x r : Z, r = x) 2)
             (Ordered.stage_init [3; 1; 2]) s →
         nf (Ordered.stage_step (λ x r : Z, r = x) 2) s →
         Ordered.emitted s = [3; 1; 2].
Proof.
  destruct (ordered_stage_preserves_order (λ x r : Z, r = x) 2 [3; 1; 2])
    as (_ & Hsn & Hrun).
  - apply Nat.lt_0_succ.
  - intros x. exists x. reflexivity.
  - split; [exact Hsn|]. intros s Hs Hnf.
    destruct (Hrun s Hs) as [_ Hfin]. destruct (Hfin Hnf) as [_ Hmap].
    exact (Hmap (λ x, x) (λ x r Hr, Hr)).
Defined.

(** X1 on the rig: timestamp 6 is not in the table. *)
Lemma Postprocessor_missing_witness :
  Postprocessor_doTask (6, [[(1, 2, 3, 4, (0, 0, 255))]]) (world1 9 5 vga)
  = (Raise (KeyError 6), world1 9 5 vga).
Proof.
  apply (Postprocessor_missing 6 [[(1, 2, 3, 4, (0, 0, 255))]] (world1 9 5 vga)).
  reflexivity.
Defined.

End Concrete.

(** * What the stage bodies compute: properties *)
Section MeaningFacts.
Import Meaning.
Context {Frame Classifier : Type} `{!Vision Frame Classifier}.
Implicit Types (w : World Frame) (t : Z) (f : Frame).

Ltac run_monad :=
  unfold mbind, M_bind, mret, M_ret, modify, call, lift, with_local,
    try_except in *; simpl in *.

(** The Postprocessor's loop draws the rectangles one after the other
    into the frame of its task. *)
Lemma draw_present_eq (rects : list Rect5) t w f :
  images w !! t = Some f →
  for_each rects (λ '(x1, y1, x2, y2, color),
    images_update t
      (λ img, cv2_rectangle img (x1, y1) (x1 + x2, y1 + y2) color)) w
  = (Ret tt, with_images (<[t := foldl draw_rect f rects]> (images w)) w).
Proof.
  revert w f. induction rects as [|[[[[x1 y1] x2] y2] color] rects IH];
    intros w f Hw.
  - cbn. rewrite insert_id by done. by destruct w.
  - cbn [for_each foldl]. unfold mbind at 1, M_bind at 1.
    unfold images_update at 1, images_getitem, images_setitem.
    unfold mbind at 1, M_bind at 1. rewrite Hw. unfold modify.
    rewrite (IH _ (cv2_rectangle f (x1, y1) (x1 + x2, y1 + y2) color))
      by apply lookup_insert_eq.
    unfold with_images. simpl. by rewrite insert_insert_eq.
Qed.

(** What the Postprocessor does, by whether the frame of its task is in
    the table. *)
Lemma Postprocessor_doTask_eq t rects w :
  Postprocessor_doTask (t, rects) w =
  match images w !! t with
  | Some f =>
      (Ret t, mkWorld (clock w)
                (<[t := annotate f rects (fps_text (ticks w ++ [clock w]))]>
                   (images w))
                (stdout w) (window w) (ticks w ++ [clock w]))
  | None => (Raise (KeyError t), w)
  end.
Proof.
  unfold Postprocessor_doTask.
  destruct (images w !! t) as [f|] eqn:Hw.
  - unfold mbind at 1, M_bind at 1. rewrite (draw_present_eq _ _ _ _ Hw).
    unfold images_getitem, framerate_tick, images_setitem, with_images.
    run_monad. rewrite lookup_insert_eq. simpl. rewrite lookup_insert_eq.
    simpl. by rewrite insert_insert_eq.
  - unfold mbind at 1, M_bind at 1.
    destruct (concat rects) as [|[[[[x1 y1] x2] y2] color] l]; simpl.
    + run_monad. unfold images_getitem. by rewrite Hw.
    + unfold mbind at 1, M_bind at 1.
      unfold images_update at 1, images_getitem.
      unfold mbind at 1, M_bind at 1. by rewrite Hw.
Qed.

(** What the Detector does, by what it finds. *)
Lemma Detector_doTask_cases (c : Classifier) color t w :
  Detector_doTask c color t w =
  match images w !! t with
  | None => (Ret [], logged "Error in detector !!!" w)
  | Some image =>
      match detectMultiScale c image (minSize image) (maxSize image) with
      | Raise e => (Ret [], logged "Error in detector !!!" w)
      | Ret rects => (Ret (tag color <$> rects), w)
      end
  end.
Proof.
  rewrite Detector_doTask_eq, Detector_try_eq. unfold minSize, maxSize.
  destruct (images w !! t) as [image|]; [|done]. cbv zeta.
  destruct (detectMultiScale _ _ _ _) as [rects|e]; [|done].
  erewrite (map_ext _ (tag color)); [done|by intros [[[a b] c'] d]].
Qed.

(** What the Viewer does, by what it finds. *)
Lemma Viewer_doTask_cases t w :
  Viewer_doTask t w =
  match images w !! t with
  | None => (Ret t, logged "Error in viewer !!!" w)
  | Some image =>
      match cv2_imshow "object detection 2" image with
      | Raise e => (Ret t, logged "Error in viewer !!!" w)
      | Ret _ => (Ret t, mkWorld (clock w) (images w) (stdout w)
                                 (window w ++ [image]) (ticks w))
      end
  end.
Proof.
  rewrite Viewer_doTask_eq. unfold Viewer_try, images_getitem, show.
  run_monad. destruct (images w !! t) as [image|]; [|done]. simpl.
  by destruct (cv2_imshow _ _).
Qed.

(** Rectangles tagged by a Detector are drawn with the corners
    [(x, y)] and [(x + w, y + h)] in the Detector's colour. *)
Lemma draw_tagged (color : Color) (rects : list Rect) f :
  foldl draw_rect f (tag color <$> rects) =
  foldl (λ img '(x, y, wd, h),
           cv2_rectangle img (x, y) (x + wd, y + h) color) f rects.
Proof.
  revert f. induction rects as [|[[[x y] wd] h] rects IH]; intros f; [done|].
  simpl. by rewrite IH.
Qed.

(** Deleting the keys of a list one after the other. *)
Lemma without_lookup (keys : list Z) (m : gmap Z Frame) k :
  without keys m !! k = if decide (k ∈ keys) then None else m !! k.
Proof.
  unfold without. revert m. induction keys as [|x keys IH]; intros m.
  - destruct (decide (k ∈ [])) as [Hk|Hk]; [by apply elem_of_nil in Hk|done].
  - cbn [foldl]. rewrite IH.
    destruct (decide (k ∈ keys)) as [Hk|Hk];
      destruct (decide (k ∈ x :: keys)) as [Hk'|Hk']; try done.
    + destruct Hk'. by right.
    + apply elem_of_cons in Hk' as [->|?]; [apply lookup_delete_eq|done].
    + apply lookup_delete_ne. intros ->. apply Hk'. left.
Qed.

(** [deallocate] on timestamps that are all different and all in the
    table deletes them all. *)
Lemma deallocate_ok (results : list Z) w :
  NoDup results → (∀ x, x ∈ results → is_Some (images w !! x)) →
  deallocate results w = (Ret tt, with_images (without results (images w)) w).
Proof.
  unfold deallocate, without.
  revert w. induction results as [|x results IH]; intros w Hnd Hin.
  - cbn. by destruct w.
  - apply NoDup_cons in Hnd as [Hx Hnd].
    destruct (Hin x) as [f Hf]; [left|].
    cbn [for_each foldl]. unfold mbind at 1, M_bind at 1.
    unfold images_delitem at 1. rewrite Hf.
    rewrite IH; [done|done|]. simpl. intros y Hy.
    rewrite lookup_delete_ne by (intros ->; done). apply Hin. by right.
Qed.

(** [deallocate] stops at the first timestamp that is not in the table
    by the time it gets there. *)
Lemma deallocate_fail (pre post : list Z) x w :
  NoDup pre → (∀ y, y ∈ pre → is_Some (images w !! y)) →
  x ∈ pre ∨ images w !! x = None →
  deallocate (pre ++ x :: post) w
  = (Raise (KeyError x), with_images (without pre (images w)) w).
Proof.
  unfold deallocate, without.
  revert w. induction pre as [|y pre IH]; intros w Hnd Hin Hx.
  - destruct Hx as [Hx|Hx]; [by apply elem_of_nil in Hx|].
    cbn [app for_each foldl]. unfold mbind at 1, M_bind at 1.
    unfold images_delitem at 1. rewrite Hx. by destruct w.
  - apply NoDup_cons in Hnd as [Hy Hnd].
    destruct (Hin y) as [f Hf]; [left|].
    cbn [app for_each foldl]. unfold mbind at 1, M_bind at 1.
    unfold images_delitem at 1. rewrite Hf.
    rewrite IH; [done|done| |].
    + simpl. intros z Hz. rewrite lookup_delete_ne by (intros ->; done).
      apply Hin. by right.
    + simpl. destruct (decide (x = y)) as [->|Hne].
      * right. apply lookup_delete_eq.
      * destruct Hx as [Hx|Hx].
        -- left. apply elem_of_cons in Hx as [?|?]; done.
        -- right. by rewrite lookup_delete_ne.
Qed.

(** X2: with the frame of its task in the table, the Postprocessor
    returns the timestamp and leaves under it the frame with the
    rectangles of all branches drawn in order, each from [(x1, y1)] to
    [(x1 + x2, y1 + y2)] in its colour, and then the two text lines
    (columns x rows of the frame, and the frame rates); it records one
    tick of the rate ticker at the current time and changes no other
    entry of the table, nor the clock, the output or the window. *)
Theorem Postprocessor_annotates t rects w f :
  images w !! t = Some f →
  ∃ w', Postprocessor_doTask (t, rects) w = (Ret t, w')
    ∧ images w' !! t
      = Some (annotate f rects (fps_text (ticks w ++ [clock w])))
    ∧ (∀ k, k ≠ t → images w' !! k = images w !! k)
    ∧ ticks w' = ticks w ++ [clock w]
    ∧ clock w' = clock w ∧ stdout w' = stdout w ∧ window w' = window w.
Proof.
  intros Hw. rewrite Postprocessor_doTask_eq, Hw. eexists. split; [done|].
  simpl. split_and!; try done.
  - apply lookup_insert_eq.
  - intros k Hk. by apply lookup_insert_ne.
Qed.

(** X3: when the frame is in the table and the classifier, asked for
    objects between a twentieth and a half of the frame's size, returns
    [rects], the Detector returns one entry per detection, in the
    classifier's order, each with the Detector's colour; it prints
    nothing and leaves the world as it was.  The size window it asks for
    is never empty when the frame's dimensions are not negative. *)
Theorem Detector_reports_detections (c : Classifier) color t w f rects :
  images w !! t = Some f →
  detectMultiScale c f (minSize f) (maxSize f) = Ret rects →
  Detector_doTask c color t w = (Ret (tag color <$> rects), w)
  ∧ length (tag color <$> rects) = length rects
  ∧ (∀ i r, rects !! i = Some r →
       (tag color <$> rects) !! i = Some (r.1.1.1, r.1.1.2, r.1.2, r.2, color))
  ∧ (0 ≤ (np_shape f).1 → 0 ≤ (minSize f).1 ≤ (maxSize f).1)
  ∧ (0 ≤ (np_shape f).2 → 0 ≤ (minSize f).2 ≤ (maxSize f).2).
Proof.
  intros Hw Hd. rewrite Detector_doTask_cases, Hw, Hd.
  split_and!; [done|by rewrite length_fmap| | |].
  - intros i [[[a b] c'] d] Hi. rewrite list_lookup_fmap.
    by destruct (rects !! i); simplify_eq.
  - unfold minSize, maxSize. simpl. intros Hr. split.
    + by apply Z.div_pos.
    + apply Z.div_le_compat_l; lia.
  - unfold minSize, maxSize. simpl. intros Hr. split.
    + by apply Z.div_pos.
    + apply Z.div_le_compat_l; lia.
Qed.

(** X4: a Detector followed by the Postprocessor on its result: every
    detection [(x, y, w, h)] of the classifier is drawn into the frame
    as the rectangle from [(x, y)] to [(x + w, y + h)] in the Detector's
    colour, in the classifier's order, before the text is written; when
    the classifier raises, the Detector prints its error line and the
    frame gets the text only. *)
Theorem detections_are_drawn (c : Classifier) color t w f :
  images w !! t = Some f →
  ∃ w', (r ← Detector_doTask c color t; Postprocessor_doTask (t, [r])) w
        = (Ret t, w')
    ∧ match detectMultiScale c f (minSize f) (maxSize f) with
      | Ret rects =>
          let img := foldl (λ img '(x, y, wd, h),
                       cv2_rectangle img (x, y) (x + wd, y + h) color) f rects in
          images w' !! t
          = Some (writeOSD img
                    [pretty (np_shape img).2 +:+ "x" +:+ pretty (np_shape img).1;
                     fps_text (ticks w ++ [clock w])])
          ∧ stdout w' = stdout w
      | Raise _ =>
          images w' !! t
          = Some (writeOSD f
                    [pretty (np_shape f).2 +:+ "x" +:+ pretty (np_shape f).1;
                     fps_text (ticks w ++ [clock w])])
          ∧ stdout w' = stdout w ++ ["Error in detector !!!"]
      end.
Proof.
  intros Hw. unfold mbind, M_bind.
  rewrite Detector_doTask_cases, Hw.
  destruct (detectMultiScale _ _ _ _) as [rects|e];
    rewrite Postprocessor_doTask_eq; simpl; rewrite Hw;
    eexists; (split; [done|]); simpl; rewrite lookup_insert_eq;
    unfold annotate; simpl; rewrite ?app_nil_r, ?draw_tagged; done.
Qed.

(** X5: the Viewer run after the Postprocessor on the same timestamp
    shows the annotated frame, the one the Postprocessor left in the
    table; when the display refuses it, the Viewer prints its error line
    instead.  In both cases the timestamp is handed on and the annotated
    frame stays in the table. *)
Theorem Viewer_shows_the_annotated_frame t rects w f :
  images w !! t = Some f →
  let g := annotate f rects (fps_text (ticks w ++ [clock w])) in
  ∃ w', (t1 ← Postprocessor_doTask (t, rects); Viewer_doTask t1) w
        = (Ret t, w')
    ∧ images w' !! t = Some g
    ∧ match cv2_imshow "object detection 2" g with
      | Ret _ => window w' = window w ++ [g] ∧ stdout w' = stdout w
      | Raise _ => window w' = window w
                   ∧ stdout w' = stdout w ++ ["Error in viewer !!!"]
      end.
Proof.
  intros Hw g. unfold mbind, M_bind. rewrite Postprocessor_doTask_eq, Hw.
  rewrite Viewer_doTask_cases. simpl. rewrite lookup_insert_eq. fold g.
  destruct (cv2_imshow _ g); eexists; (split; [done|]); simpl;
    by rewrite lookup_insert_eq.
Qed.

(** X6: how long the Staller sleeps.  For a timestamp that is not in the
    future it sleeps at most two seconds, and not at all once the
    timestamp is two seconds old; for a timestamp in the future (the
    clock was set back) it sleeps longer than two seconds, until two
    seconds after the timestamp.  The clock never goes back, and a
    second pass of the same timestamp through the Staller does not sleep
    again. *)
Theorem Staller_sleep_bounds t results results' w :
  let w' := (Staller_doTask (t, results) w).2 in
  clock w ≤ clock w'
  ∧ (t ≤ clock w → clock w' - clock w ≤ min_age)
  ∧ (t + min_age ≤ clock w → w' = w)
  ∧ (clock w < t → clock w' = t + min_age ∧ min_age < clock w' - clock w)
  ∧ Staller_doTask (t, results') w' = (Ret t, w').
Proof.
  intros w'. subst w'. rewrite !Staller_doTask_eq. simpl.
  unfold stall_duration, min_age. split_and!; try lia.
  - intros Hold. rewrite Z.max_l by lia. rewrite Z.add_0_r. by destruct w.
  - set (d := Z.max 0 (2 * 1000000 - (clock w - t))).
    rewrite (Z.max_l 0 (2 * 1000000 - (clock w + d - t))) by lia.
    by rewrite Z.add_0_r.
Qed.

(** X7: the table is a dictionary.  A frame stored under a timestamp is
    the one read back under it; storing and then deleting a timestamp
    that was absent gives the table back as it was; and of two
    deletions of the same timestamp in a row the second raises
    [KeyError], as does a lookup after a deletion. *)
Theorem table_round_trips t f w :
  (images_setitem t f;; images_getitem t) w
    = (Ret f, with_images (<[t := f]> (images w)) w)
  ∧ (images w !! t = None →
     (images_setitem t f;; images_delitem t) w = (Ret tt, w))
  ∧ (∃ w', (images_delitem t;; images_delitem t) w = (Raise (KeyError t), w')
           ∧ images w' !! t = None)
  ∧ (∃ w', (images_delitem t;; images_getitem t) w = (Raise (KeyError t), w')
           ∧ images w' !! t = None).
Proof.
  unfold images_setitem, images_getitem, images_delitem, with_images.
  run_monad. split_and!.
  - by rewrite lookup_insert_eq.
  - intros Hw. rewrite lookup_insert_eq. rewrite delete_insert_eq.
    rewrite delete_id by done. by destruct w.
  - destruct (images w !! t) as [g|] eqn:Hw; simpl.
    + rewrite lookup_delete_eq. eexists. split; [done|]. simpl.
      apply lookup_delete_eq.
    + by eexists.
  - destruct (images w !! t) as [g|] eqn:Hw; simpl.
    + rewrite lookup_delete_eq. eexists. split; [done|]. simpl.
      apply lookup_delete_eq.
    + by eexists.
Qed.

(** X8: [deallocate] returns exactly when the timestamps it is given are
    all different and all in the table; it has then deleted these
    entries and no other, and changed nothing else. *)
Theorem deallocate_returns_iff (results : list Z) w :
  ((∃ w', deallocate results w = (Ret tt, w'))
   ↔ NoDup results ∧ ∀ x, x ∈ results → is_Some (images w !! x))
  ∧ ∀ w', deallocate results w = (Ret tt, w') →
      w' = with_images (without results (images w)) w
      ∧ ∀ k, images w' !! k = if decide (k ∈ results) then None
                              else images w !! k.
Proof.
  assert (∀ w', deallocate results w = (Ret tt, w') →
            NoDup results ∧ ∀ x, x ∈ results → is_Some (images w !! x)) as Hret.
  { unfold deallocate. revert w.
    induction results as [|x results IH]; intros w w'.
    - intros _. split; [constructor|]. by intros x ?%elem_of_nil.
    - cbn [for_each]. unfold mbind at 1, M_bind at 1.
      unfold images_delitem at 1.
      destruct (images w !! x) as [f|] eqn:Hx; [|done].
      intros [Hnd Hin]%IH. simpl in Hin. split.
      + constructor; [|done]. intros Hx'. apply Hin in Hx' as [g Hg].
        by rewrite lookup_delete_eq in Hg.
      + intros y [->|Hy]%elem_of_cons; [done|].
        apply Hin in Hy as [g Hg].
        apply lookup_delete_Some in Hg as [_ Hg]. done. }
  split; [split|].
  - intros [w' Hw']. by eapply Hret.
  - intros [Hnd Hin]. eexists. by apply deallocate_ok.
  - intros w' Hw'. destruct (Hret _ Hw') as [Hnd Hin].
    rewrite deallocate_ok in Hw' by done. injection Hw' as <-.
    split; [done|]. intros k. simpl. apply without_lookup.
Qed.

(** X9: [deallocate] has no handler around [del images[tstamp]]: at the
    first timestamp that is repeated or not in the table it raises
    [KeyError] for that timestamp; the entries of the timestamps before
    it are deleted, every other entry stays in the table, the
    timestamps behind it included. *)
Theorem deallocate_stops_at_first_miss (pre post : list Z) x w :
  NoDup pre → (∀ y, y ∈ pre → is_Some (images w !! y)) →
  x ∈ pre ∨ images w !! x = None →
  ∃ w', deallocate (pre ++ x :: post) w = (Raise (KeyError x), w')
    ∧ (∀ k, k ∈ pre → images w' !! k = None)
    ∧ (∀ k, k ∉ pre → images w' !! k = images w !! k)
    ∧ clock w' = clock w ∧ stdout w' = stdout w.
Proof.
  intros Hnd Hin Hx. rewrite deallocate_fail by done.
  eexists. split; [done|]. simpl. split_and!; try done.
  - intros k Hk. by rewrite without_lookup, decide_True.
  - intros k Hk. by rewrite without_lookup, decide_False.
Qed.

End MeaningFacts.

(** * What holds of every run: properties *)
Section SafetyFacts.
Import Program Safety Meaning.
Context {Frame Classifier : Type} `{!Vision Frame Classifier}.
Variable end_ : Z.

Implicit Types (tr : list event) (e : event) (s : state (Frame:=Frame)).
Implicit Types (feed : list (Z * Frame)).

(** The timestamps of the iterations: the loop went on after each but
    the last, so each but the last is before the end time, and so is the
    reading the loop started from. *)
Lemma captured_shape now feed l t rest :
  (captured end_ now feed).*1 = l ++ t :: rest →
  end_ > now ∧ Forall (λ x, end_ > x) l ∧ (rest ≠ [] → end_ > t).
Proof.
  revert now l t rest.
  induction feed as [|[t' f] feed IH]; intros now l t rest; simpl.
  - by destruct l.
  - case_bool_decide as Hend; [|by destruct l].
    destruct l as [|x l]; simpl; intros Heq; injection Heq as -> Heq.
    + split_and!; [done|constructor|]. intros Hrest.
      destruct rest as [|r rest]; [done|].
      by destruct (IH t [] r rest Heq) as [? _].
    + destruct (IH _ _ _ _ Heq) as (Ht & Hl & Hr).
      split_and!; [done|by constructor|done].
Qed.

Lemma captured_stop now feed :
  ¬ end_ > now → captured end_ now feed = [].
Proof.
  intros Hend. destruct feed as [|[t f] feed]; simpl; [done|].
  by rewrite bool_decide_false.
Qed.

Lemma last_read_snoc now0 tr e :
  last_read now0 (tr ++ [e]) =
  match e with EvInsert t => t | _ => last_read now0 tr end.
Proof.
  unfold last_read. rewrite inserts_snoc.
  destruct e; rewrite ?app_nil_r; try done. by rewrite last_snoc.
Qed.

Lemma safe_init now feed :
  safe_inv end_ now (captured end_ now feed).*1 (init now feed).
Proof.
  split; simpl; try done.
  - intros n feed' [?|?]; by simplify_eq.
  - by exists [].
  - by exists [].
  - intros k. rewrite lookup_empty. by intros [].
  - intros [?%elem_of_nil|?]; done.
Qed.

Ltac tr_simpl :=
  rewrite ?puts_snoc, ?emits_snoc, ?pulls_snoc, ?deletes_snoc, ?inserts_snoc,
    ?last_read_snoc; simpl; rewrite ?app_nil_r.

(** What the Postprocessor leaves behind, for the moves of the
    program. *)
Lemma Postprocessor_outcome t rects (w : World Frame) o w' :
  Postprocessor_doTask (t, rects) w = (o, w') →
  (∃ f f', images w !! t = Some f ∧ o = Ret t
           ∧ images w' = <[t := f']> (images w))
  ∨ (images w !! t = None ∧ o = Raise (KeyError t) ∧ w' = w).
Proof.
  rewrite Postprocessor_doTask_eq. destruct (images w !! t) as [f|].
  - intros; simplify_eq. left. by eexists _, _.
  - intros; simplify_eq. by right.
Qed.

(** Membership of the stop task in queues built with [++] and [::]. *)
Ltac stops :=
  repeat (rewrite elem_of_app || rewrite elem_of_cons || rewrite elem_of_nil);
  intuition (subst; first [done | auto]).

Lemma safe_fire now0 toks0 a s s' :
  safe_inv end_ now0 toks0 s → fire end_ a s = Some s' →
  safe_inv end_ now0 toks0 s'.
Proof.
  intros [Hfeed Hread Hexit Hins (lost & Hputs & Hlost) Hemits
          (held & Hpulls & Hheld) Hsize Hdom Hss Hout Hfin Hstop].
  destruct s as [pc w qi qm qo ps ss di dp do tr].
  simpl in * |-. intros Hfire.
  destruct a; unfold fire in Hfire; cbv beta iota zeta in Hfire.
  - (* CapRead *)
    destruct pc as [now [|[t f] feed]|? ?| | | |]; try done.
    case_bool_decide as Hend; [|done]. injection Hfire as <-.
    simpl in Hfeed. rewrite bool_decide_true in Hfeed by done.
    split; simpl; tr_simpl; try done.
    + by rewrite <- app_assoc.
    + intros n feed0 [?|?]; by simplify_eq.
    + simpl in Hins. rewrite app_nil_r in Hins. by rewrite Hins.
    + eauto.
    + eauto.
    + rewrite map_size_insert, length_app. simpl.
      destruct (images w !! t); simpl; lia.
    + intros k. destruct (decide (k = t)) as [->|Hne].
      * intros _. apply elem_of_app. right. left.
      * rewrite lookup_insert_ne by done. intros Hk%Hdom.
        apply elem_of_app. by left.
  - (* CapPut *)
    destruct pc as [|t feed| | | |]; try done. injection Hfire as <-.
    split; simpl; tr_simpl; try done; try (by eauto).
    + intros n feed0 [?|?]; simplify_eq. by apply (Hread n feed0); right.
    + exists lost. split; [|done].
      rewrite Hputs, omap_app, <- !app_assoc. done.
  - (* CapExit *)
    destruct pc as [now feed| | | | |]; try done.
    case_bool_decide as Hend; [done|]. injection Hfire as <-.
    simpl in Hfeed, Hins. rewrite captured_stop in Hfeed by done.
    simpl in Hfeed. rewrite app_nil_r in Hfeed, Hins.
    split; simpl; tr_simpl; try done; try (by eauto).
    + intros n feed0 [?|?]; by simplify_eq.
    + intros _. by rewrite (Hread now feed) by (by left).
  - (* StopIproc *)
    destruct pc; try done. injection Hfire as <-.
    simpl in Hfeed, Hins. rewrite app_nil_r in Hfeed, Hins.
    split; simpl; tr_simpl; try done; try (by eauto).
    + intros n feed0 [?|?]; by simplify_eq.
    + exists lost. split; [|done]. by rewrite omap_app, app_nil_r.
  - (* StopDealloc *)
    destruct pc; try done. injection Hfire as <-.
    simpl in Hfeed, Hins. rewrite app_nil_r in Hfeed, Hins.
    split; simpl; tr_simpl; try done; try (by eauto).
    intros n feed0 [?|?]; by simplify_eq.
  - (* Drain *)
    destruct pc; try done.
    simpl in Hfeed, Hins. rewrite app_nil_r in Hfeed, Hins.
    destruct do as [|[[]|] do']; try done;
      injection Hfire as <-; split; simpl; tr_simpl; try done; try (by eauto).
    intros n feed0 [?|?]; by simplify_eq.
  - (* Postproc *)
    destruct ps; try done. destruct qi as [|[t|] qi']; try done.
    + destruct (Postprocessor_doTask _ _) as [o w'] eqn:E.
      apply Postprocessor_outcome in E
        as [(f & f' & Hf & -> & Hw')|(Hf & -> & ->)]; simpl in * |-;
        injection Hfire as <-; split; simpl; tr_simpl; try done; try (by eauto).
      * exists []. split; [|done]. rewrite Hputs, (Hlost eq_refl), omap_app.
        simpl. by rewrite <- !app_assoc.
      * by rewrite Hw', map_size_insert, Hf.
      * intros k. rewrite Hw'. destruct (decide (k = t)) as [->|Hne].
        -- intros _. apply Hdom. by eexists.
        -- rewrite lookup_insert_ne by done. apply Hdom.
      * intros Hp. assert (Alive = Stopped) as Hc; [|done].
        apply Hstop. revert Hp. stops.
      * exists [t]. split; [|done]. by rewrite Hputs, (Hlost eq_refl).
      * intros Hp. by specialize (Hstop Hp).
    + injection Hfire as <-; split; simpl; tr_simpl; try done; try (by eauto).
      exists []. split; [|done]. rewrite Hputs, (Hlost eq_refl), omap_app.
      simpl. by rewrite app_nil_r.
  - (* Stall *)
    destruct ss; try done. destruct qm as [|[t|] qm']; try done.
    + rewrite Staller_doTask_eq in Hfire. injection Hfire as <-.
      split; simpl; tr_simpl; try done; try (by eauto).
      * exists lost. split; [|done]. rewrite Hputs. simpl.
        by rewrite <- !app_assoc.
      * rewrite Hemits, omap_app. simpl. by rewrite <- !app_assoc.
      * intros Hp. apply Hstop. revert Hp. stops.
    + injection Hfire as <-; split; simpl; tr_simpl; try done; try (by eauto).
      * by rewrite omap_app, app_nil_r.
      * intros _. apply Hstop. left. apply elem_of_app. left. left.
  - (* DeallocStart *)
    destruct dp; try done. destruct di as [|[b|] di']; try done.
    injection Hfire as <-; split; simpl; tr_simpl; try done; try (by eauto).
    + intros Hd. by specialize (Hout Hd).
    + intros Hd. by specialize (Hfin Hd).
  - (* DeallocPull *)
    destruct dp; try done. destruct qo as [|[t|] qo']; try done;
      injection Hfire as <-; split; simpl; tr_simpl; try done; try (by eauto).
    + rewrite Hemits. simpl. by rewrite <- !app_assoc.
    + exists (held ++ [t]). split.
      * by rewrite Hpulls, app_assoc.
      * intros _. by rewrite Hheld.
    + intros Hd. by specialize (Hout Hd).
    + intros Hd. by specialize (Hfin Hd).
    + intros Hp. apply Hstop. revert Hp. stops.
    + intros Hd. by specialize (Hout Hd).
    + intros Hd. by specialize (Hfin Hd).
    + intros _. apply Hstop. left. apply elem_of_app. right. left.
  - (* DeallocDel *)
    destruct dp as [| |t| | |]; try done.
    unfold images_delitem in Hfire.
    destruct (images w !! t) as [f|] eqn:Hf;
      injection Hfire as <-; split; simpl; tr_simpl; try done; try (by eauto).
    + exists []. split; [|done]. rewrite Hpulls, Hheld by done.
      simpl. by rewrite app_nil_r.
    + pose proof (map_size_ne_0_lookup_2 (images w) t (mk_is_Some _ _ Hf)).
      rewrite map_size_delete, Hf, length_app. simpl. lia.
    + intros k [g Hg]. apply lookup_delete_Some in Hg as [_ Hg].
      apply Hdom. by eexists.
    + intros Hd. by specialize (Hout Hd).
    + intros Hd. by specialize (Hfin Hd).
    + exists held. split; [done|]. intros Hc. by destruct (Hc (KeyError t)).
    + intros Hd. by specialize (Hout Hd).
    + intros Hd. by specialize (Hfin Hd).
  - (* DeallocStop *)
    destruct dp; try done. destruct di as [|[b|] di']; try done.
    injection Hfire as <-; split; simpl; tr_simpl; try done; try (by eauto).
Qed.

Lemma safe_reachable now feed s :
  rtc (step end_) (init now feed) s →
  safe_inv end_ now (captured end_ now feed).*1 s.
Proof.
  intros Hrtc.
  apply rtc_ind_r with (x:=init now feed)
    (P:=safe_inv (Frame:=Frame) end_ now (captured end_ now feed).*1)
    in Hrtc; [done|apply safe_init|].
  intros y z _ [a Ha] Hy. by eapply safe_fire.
Qed.

(** A schedule that can be run is a run of the program. *)
Lemma run_rtc sched s s' :
  run end_ sched s = Some s' → rtc (step end_) s s'.
Proof.
  revert s. induction sched as [|a sched IH]; intros s; simpl.
  - intros; simplify_eq. apply rtc_refl.
  - destruct (fire end_ a s) as [s1|] eqn:E; [|done]. simpl. intros Hr.
    eapply rtc_l; [by exists a|by apply IH].
Qed.

(** Once an exception escaped [deallocate] or the Postprocessor, the
    process stays where it is. *)
Lemma crashed_stable s s' (x : exn) :
  rtc (step end_) s s' → dpc s = DCrashed x → dpc s' = DCrashed x.
Proof.
  induction 1 as [|s s1 s2 [a Ha] _ IH]; [done|]. intros Hc. apply IH.
  destruct s as [pc w qi qm qo ps ss di dp do tr]. simpl in Hc. subst dp.
  destruct a; unfold fire in Ha; cbv beta iota zeta in Ha;
    repeat (case_match; try done); by simplify_eq.
Qed.

Lemma died_stable s s' (x : exn) :
  rtc (step end_) s s' → postproc_st s = Died x → postproc_st s' = Died x.
Proof.
  induction 1 as [|s s1 s2 [a Ha] _ IH]; [done|]. intros Hc. apply IH.
  destruct s as [pc w qi qm qo ps ss di dp do tr]. simpl in Hc. subst ps.
  destruct a; unfold fire in Ha; cbv beta iota zeta in Ha;
    repeat (case_match; try done); by simplify_eq.
Qed.

(** A table whose keys are those of a list without repetitions has the
    size of the list. *)
Lemma size_of_keys (m : gmap Z Frame) (l : list Z) :
  NoDup l → (∀ k, is_Some (m !! k) ↔ k ∈ l) → size m = length l.
Proof.
  intros Hnd Hk. rewrite <- size_dom.
  assert (dom m = list_to_set (C:=gset Z) l) as ->.
  { apply set_eq. intros k. by rewrite elem_of_dom, elem_of_list_to_set. }
  by apply size_list_to_set.
Qed.

(** X10: the capture loop tests [end > now] on the timestamp of the
    frame it stored last.  So in every run, whatever the clock returns:
    every timestamp inserted but the last is before the end time; the
    loop is left only when the last timestamp inserted is at or after
    the end time, and the timestamps inserted are then those of all the
    iterations; and when the end time is not after the reading of line
    148, no frame is captured at all. *)
Theorem capture_loop_overshoots now feed s :
  rtc (step end_) (init now feed) s →
  inserts (trace s) `prefix_of` (captured end_ now feed).*1
  ∧ (∀ l t, inserts (trace s) = l ++ [t] →
       end_ > now ∧ Forall (λ x, end_ > x) l)
  ∧ (¬ end_ > now → inserts (trace s) = [])
  ∧ (loop_over (pc s) = true →
       inserts (trace s) = (captured end_ now feed).*1
       ∧ ¬ end_ > default now (last (inserts (trace s)))).
Proof.
  intros Hs. pose proof (safe_reachable _ _ _ Hs) as Hinv.
  pose proof (safe_feed _ _ _ _ Hinv) as Hfeed.
  assert (∀ l t, inserts (trace s) = l ++ [t] →
            end_ > now ∧ Forall (λ x, end_ > x) l) as Hshape.
  { intros l t Hl. rewrite Hl, <- app_assoc in Hfeed.
    by destruct (captured_shape _ _ _ _ _ Hfeed) as (? & ? & _). }
  split_and!.
  - eexists. exact Hfeed.
  - done.
  - intros Hend. destruct (inserts (trace s)) as [|x l] eqn:E using rev_ind;
      [done|]. by destruct (Hshape l x).
  - intros Hover. split.
    + rewrite Hfeed. destruct (pc s); try done; simpl; by rewrite app_nil_r.
    + by apply (safe_exit _ _ _ _ Hinv).
Qed.

(** X11: timestamps move through the program in the order of their
    capture and are never made up or repeated on the way: in every run,
    with repeated timestamps and with workers that died included, the
    timestamps deleted are a prefix of those [pipe_iproc.results()]
    yielded, these a prefix of those the Staller put out, these a prefix
    of those put into [pipe_iproc], and these a prefix of those stored
    in the table; the Staller never dies. *)
Theorem timestamps_flow_in_order now feed s :
  rtc (step end_) (init now feed) s →
  deletes (trace s) `prefix_of` pulls (trace s)
  ∧ pulls (trace s) `prefix_of` emits (trace s)
  ∧ emits (trace s) `prefix_of` puts (trace s)
  ∧ puts (trace s) `prefix_of` inserts (trace s)
  ∧ inserts (trace s) `prefix_of` (captured end_ now feed).*1
  ∧ ∀ x : exn, staller_st s ≠ Died x.
Proof.
  intros Hs. destruct (safe_reachable _ _ _ Hs)
    as [Hfeed _ _ Hins (lost & Hputs & _) Hemits (held & Hpulls & _)
        _ _ Hss _ _ _].
  split_and!; [by eexists..|done].
Qed.

(** X12: the table never holds more frames than were stored and not yet
    deleted, and never a timestamp the capture loop did not store: in
    every run the size of the table plus the number of deletions is at
    most the number of insertions. *)
Theorem table_bounded_by_frames_in_flight now feed s :
  rtc (step end_) (init now feed) s →
  (size (images (world s)) + length (deletes (trace s))
   ≤ length (inserts (trace s)))%nat
  ∧ ∀ k, is_Some (images (world s) !! k) → k ∈ inserts (trace s).
Proof.
  intros Hs. pose proof (safe_reachable _ _ _ Hs) as Hinv.
  split; apply Hinv.
Qed.

(** X13: an exception that escapes [deallocate] or the Postprocessor is
    never recovered from: from then on the main process cannot leave its
    last loop, over [pipe_dealloc.results()], because the stop task can
    no longer be forwarded to it; the program does not finish. *)
Theorem crash_blocks_shutdown now feed s (x : exn) :
  rtc (step end_) (init now feed) s →
  dpc s = DCrashed x ∨ postproc_st s = Died x →
  ∀ s', rtc (step end_) s s' →
    pc s' ≠ Finished ∧ dpc s' ≠ DStopped
    ∧ (dpc s = DCrashed x → dpc s' = DCrashed x)
    ∧ (postproc_st s = Died x → postproc_st s' = Died x).
Proof.
  intros Hs Hx s' Hs'.
  assert (rtc (step end_) (init now feed) s') as Hinit by (by etrans).
  pose proof (safe_reachable _ _ _ Hinit) as Hinv.
  assert (dpc s' ≠ DStopped) as Hd.
  { intros Hd. destruct Hx as [Hx|Hx].
    - pose proof (crashed_stable _ _ _ Hs' Hx). congruence.
    - pose proof (died_stable _ _ _ Hs' Hx) as Hp.
      rewrite (safe_stop _ _ _ _ Hinv) in Hp; [done|].
      right. by rewrite Hd. }
  split_and!.
  - intros Hf. by apply Hd, (safe_fin _ _ _ _ Hinv).
  - done.
  - by apply crashed_stable.
  - by apply died_stable.
Qed.

(** X14: when the timestamps the capture loop reads are all different
    and the clock reaches the end time, a frame is in the table exactly
    from its insertion to its deletion: in every state of every run the
    keys of the table are the timestamps inserted and not yet deleted,
    and the size of the table is the number of insertions minus the
    number of deletions. *)
Theorem frames_resident_until_deleted now feed s :
  loop_exits end_ now feed = true →
  NoDup (captured end_ now feed).*1 →
  rtc (step end_) (init now feed) s →
  (∀ k, is_Some (images (world s) !! k)
        ↔ k ∈ inserts (trace s) ∧ k ∉ deletes (trace s))
  ∧ (size (images (world s)) + length (deletes (trace s))
     = length (inserts (trace s)))%nat.
Proof.
  intros Hex Hnd Hs.
  pose proof (program_inv_reachable end_ now feed s Hex Hnd Hs) as Hinv.
  destruct (inv_pipe _ _ _ Hinv) as (toks & _ & Hflow & Hdom).
  pose proof (inv_inserts _ _ _ Hinv) as Hins.
  pose proof (inv_feed _ _ _ Hinv) as Hfeed.
  rewrite Hfeed, Hflow in Hnd. rewrite Hins, Hflow.
  rewrite <- !app_assoc in Hnd.
  apply NoDup_app in Hnd as (_ & Hn2 & Hn3).
  rewrite (app_assoc _ toks), (app_assoc (_ ++ toks)) in Hn3.
  apply NoDup_app in Hn3 as (Hn3 & _ & _).
  split.
  - intros k. rewrite Hdom. split.
    + intros Hk. split.
      * revert Hk. rewrite !elem_of_app. tauto.
      * intros Hd. apply (Hn2 _ Hd). revert Hk. rewrite !elem_of_app. tauto.
    + rewrite !elem_of_app. tauto.
  - rewrite (size_of_keys _ ((deleting (dpc s) ++ toks) ++ pending (pc s))).
    + rewrite !length_app. lia.
    + done.
    + intros k. rewrite Hdom, !elem_of_app. tauto.
Qed.

End SafetyFacts.

(** * The further properties on the test rig *)
Section ConcreteMore.
Import Program Safety Meaning Sim.

(** X2 on the rig: one red rectangle on a 640x480 frame. *)
Lemma Postprocessor_annotates_witness :
  ∃ w', Postprocessor_doTask (5, [[(1, 2, 3, 4, (0, 0, 255))]]) (world1 9 5 vga)
        = (Ret 5, w')
    ∧ images w' !! 5
      = Some (mkFrame 480 640 [(1, 2, 4, 6, (0, 0, 255))] ["640x480"; "1 ticks"])
    ∧ ticks w' = [9].
Proof.
  destruct (Postprocessor_annotates 5 [[(1, 2, 3, 4, (0, 0, 255))]]
              (world1 9 5 vga) vga) as (w' & Hrun & Himg & _ & Hticks & _).
  - reflexivity.
  - exists w'. split; [exact Hrun|]. split; [|exact Hticks].
    rewrite Himg. vm_compute. reflexivity.
Defined.

(** X3 on the rig: a classifier that reports two objects. *)
Lemma Detector_reports_detections_witness :
  Detector_doTask (Finds (0, 255, 0) [(1, 2, 3, 4); (5, 6, 7, 8)]) (0, 255, 0)
                  5 (world1 9 5 vga)
  = (Ret [(1, 2, 3, 4, (0, 255, 0)); (5, 6, 7, 8, (0, 255, 0))], world1 9 5 vga).
Proof.
  destruct (Detector_reports_detections
              (Finds (0, 255, 0) [(1, 2, 3, 4); (5, 6, 7, 8)]) (0, 255, 0)
              5 (world1 9 5 vga) vga [(1, 2, 3, 4); (5, 6, 7, 8)])
    as (Hrun & _).
  - reflexivity.
  - reflexivity.
  - exact Hrun.
Defined.

(** X4 on the rig: the same classifier, followed by the Postprocessor. *)
Lemma detections_are_drawn_witness :
  ∃ w', (r ← Detector_doTask (Finds (0, 255, 0) [(1, 2, 3, 4); (5, 6, 7, 8)])
                             (0, 255, 0) 5;
         Postprocessor_doTask (5, [r])) (world1 9 5 vga) = (Ret 5, w')
    ∧ drawn <$> images w' !! 5
      = Some [(1, 2, 4, 6, (0, 255, 0)); (5, 6, 12, 14, (0, 255, 0))].
Proof.
  destruct (detections_are_drawn
              (Finds (0, 255, 0) [(1, 2, 3, 4); (5, 6, 7, 8)]) (0, 255, 0)
              5 (world1 9 5 vga) vga) as (w' & Hrun & Himg).
  - reflexivity.
  - exists w'. split; [exact Hrun|]. simpl in Himg. destruct Himg as [Himg _].
    rewrite Himg. reflexivity.
Defined.

(** X5 on the rig: a frame that can be shown. *)
Lemma Viewer_shows_the_annotated_frame_witness :
  ∃ w', (t1 ← Postprocessor_doTask (5, [[(1, 2, 3, 4, (0, 0, 255))]]);
         Viewer_doTask t1) (world1 9 5 vga) = (Ret 5, w')
    ∧ window w'
      = [mkFrame 480 640 [(1, 2, 4, 6, (0, 0, 255))] ["640x480"; "1 ticks"]]
    ∧ stdout w' = [].
Proof.
  destruct (Viewer_shows_the_annotated_frame 5 [[(1, 2, 3, 4, (0, 0, 255))]]
              (world1 9 5 vga) vga) as (w' & Hrun & _ & Hshow).
  - reflexivity.
  - exists w'. split; [exact Hrun|]. vm_compute in Hshow. exact Hshow.
Defined.

(** X9 on the rig: [pipe_iproc] yields 5 twice, then 7. *)
Lemma deallocate_stops_at_first_miss_witness :
  ∃ w', deallocate [5; 5; 7] (mkWorld 0 (<[5 := vga]> {[7 := blank]}) [] [] [])
        = (Raise (KeyError 5), w')
    ∧ images w' !! 5 = None ∧ images w' !! 7 = Some blank.
Proof.
  destruct (deallocate_stops_at_first_miss [5] [7] 5
              (mkWorld 0 (<[5 := vga]> {[7 := blank]}) [] [] []))
    as (w' & Hrun & Hpre & Hrest & _).
  - apply (bool_decide_unpack _). vm_compute. exact I.
  - intros y Hy. apply list_elem_of_singleton in Hy. subst y.
    exists vga. reflexivity.
  - left. apply (bool_decide_unpack _). vm_compute. exact I.
  - exists w'. split; [exact Hrun|]. split.
    + apply Hpre. apply (bool_decide_unpack _). vm_compute. exact I.
    + rewrite Hrest; [reflexivity|].
      apply (bool_decide_unpack _). vm_compute. exact I.
Defined.

(** X10 on the rig: the loop that ends at 10 stores the frames stamped
    1, 7 and 12. *)
Lemma capture_loop_overshoots_witness :
  ∃ s, run (Classifier:=classifier) 10
         [CapRead; CapPut; CapRead; CapPut; CapRead; CapPut; CapExit]
         (init 0 feed3) = Some s
    ∧ inserts (trace s) = [1; 7; 12]
    ∧ ¬ 10 > default 0 (last (inserts (trace s))).
Proof.
  eexists. split; [vm_compute; reflexivity|].
  match goal with |- inserts (trace ?s) = _ ∧ _ =>
    destruct (capture_loop_overshoots (Classifier:=classifier) 10 0 feed3 s)
      as (_ & _ & _ & Hover)
  end.
  - apply (run_rtc (Classifier:=classifier) 10
             [CapRead; CapPut; CapRead; CapPut; CapRead; CapPut; CapExit]).
    vm_compute. reflexivity.
  - destruct Hover as [Hall Hlast]; [reflexivity|].
    split; [exact Hall|exact Hlast].
Defined.

(** X11 on the rig: the clock returns 5 twice; the first 5 has been
    deleted, the second is in front of the Postprocessor. *)
Lemma timestamps_flow_in_order_witness :
  ∃ s, run (Classifier:=classifier) 10
         [CapRead; CapPut; CapRead; CapPut; Postproc [] 6; Stall [5] 7;
          DeallocStart; DeallocPull; DeallocDel]
         (init 0 feed_collision) = Some s
    ∧ deletes (trace s) `prefix_of` pulls (trace s)
    ∧ emits (trace s) `prefix_of` puts (trace s).
Proof.
  eexists. split; [vm_compute; reflexivity|].
  match goal with |- deletes (trace ?s) `prefix_of` _ ∧ _ =>
    destruct (timestamps_flow_in_order (Classifier:=classifier) 10 0
                feed_collision s) as (Hd & _ & He & _)
  end.
  - apply (run_rtc (Classifier:=classifier) 10
             [CapRead; CapPut; CapRead; CapPut; Postproc [] 6; Stall [5] 7;
              DeallocStart; DeallocPull; DeallocDel]).
    vm_compute. reflexivity.
  - split; [exact Hd|exact He].
Defined.

(** X12 on the rig: after the second assignment under the timestamp 5
    the table has one entry for two insertions. *)
Lemma table_bounded_by_frames_in_flight_witness :
  ∃ s, run (Classifier:=classifier) 10 [CapRead; CapPut; CapRead]
         (init 0 feed_collision) = Some s
    ∧ (size (images (world s)) + length (deletes (trace s))
       ≤ length (inserts (trace s)))%nat
    ∧ size (images (world s)) = 1%nat ∧ length (inserts (trace s)) = 2%nat.
Proof.
  eexists. split; [vm_compute; reflexivity|].
  match goal with |- (size (images (world ?s)) + _ ≤ _)%nat ∧ _ =>
    destruct (table_bounded_by_frames_in_flight (Classifier:=classifier) 10 0
                feed_collision s) as (Hsize & _)
  end.
  - apply (run_rtc (Classifier:=classifier) 10 [CapRead; CapPut; CapRead]).
    vm_compute. reflexivity.
  - split; [exact Hsize|]. split; vm_compute; reflexivity.
Defined.

(** X13 on the rig: the clock returns 5 twice and the first 5 is
    deallocated before the Postprocessor takes the second: the
    Postprocessor dies, and the program cannot finish any more. *)
Lemma crash_blocks_shutdown_witness :
  ∃ s, run (Classifier:=classifier) 10
         [CapRead; CapPut; CapRead; CapPut; Postproc [] 6; Stall [5] 7;
          DeallocStart; DeallocPull; DeallocDel; Postproc [] 2000008]
         (init 0 feed_collision) = Some s
    ∧ postproc_st s = Died (KeyError 5)
    ∧ ∀ s', rtc (step (Classifier:=classifier) 10) s s' → pc s' ≠ Finished.
Proof.
  eexists. split; [vm_compute; reflexivity|]. split; [reflexivity|].
  intros s' Hs'.
  match type of Hs' with rtc _ ?s _ =>
    destruct (crash_blocks_shutdown (Classifier:=classifier) 10 0
                feed_collision s (KeyError 5)) with (s' := s') as (Hpc & _)
  end.
  - apply (run_rtc (Classifier:=classifier) 10
             [CapRead; CapPut; CapRead; CapPut; Postproc [] 6; Stall [5] 7;
              DeallocStart; DeallocPull; DeallocDel; Postproc [] 2000008]).
    vm_compute. reflexivity.
  - right. reflexivity.
  - exact Hs'.
  - exact Hpc.
Defined.

(** X14 on the rig: two frames stored, the first on its way through the
    pipeline. *)
Lemma frames_resident_until_deleted_witness :
  ∃ s, run (Classifier:=classifier) 10
         [CapRead; CapPut; CapRead; Postproc [] 3]
         (init 0 feed3) = Some s
    ∧ (size (images (world s)) + length (deletes (trace s))
       = length (inserts (trace s)))%nat
    ∧ inserts (trace s) = [1; 7].
Proof.
  eexists. split; [vm_compute; reflexivity|].
  match goal with |- (size (images (world ?s)) + _ = _)%nat ∧ _ =>
    destruct (frames_resident_until_deleted (Classifier:=classifier) 10 0
                feed3 s) as (_ & Hsize)
  end.
  - reflexivity.
  - apply (bool_decide_unpack _). vm_compute. exact I.
  - apply (run_rtc (Classifier:=classifier) 10
             [CapRead; CapPut; CapRead; Postproc [] 3]).
    vm_compute. reflexivity.
  - split; [exact Hsize|]. vm_compute. reflexivity.
Defined.

End ConcreteMore.
